(** * VoiceScribe transcription server: a shallow embedding and its properties

    The development follows [transcription_server.py]:
    - the three module globals [model], [model_lock] and [model_loaded] are
      fields of a [World] that every function threads through;
    - Python control flow ([try]/[except], [try]/[finally], [with]) is
      embedded by combinators of a state-and-exception monad [M];
    - the standard-library functions the handlers call ([urlparse], [int],
      [json.loads], [tempfile]) form the interface [PyLib];
    - the speech model is an opaque object with one method, [generate].

    Every effect is also appended to an event log ([trace]), so that
    statements about the order of effects ("the lock is taken before the
    model is called") are statements about lists. *)

From Stdlib Require Import ZArith Ascii String List Bool Lia.
From stdpp Require Import base option list strings pretty gmap relations.

Local Open Scope Z_scope.
Local Open Scope string_scope.
Local Open Scope list_scope.

Set Warnings "-register-all".

Abbreviation bytes := (list Byte.byte).

(** ** Python values *)

(** The values that cross the JSON boundary: what [json.loads] returns and
    what [json.dumps] accepts.  A [dict] is an association list in insertion
    order; keys of a dict built by [json.loads] are pairwise distinct. *)
Inductive pyval :=
| PNone
| PBool (b : bool)
| PInt (n : Z)
| PFloat (repr : string)
| PStr (s : string)
| PList (l : list pyval)
| PDict (d : list (string * pyval)).

(** Instances of [Exception]: the class of the instance and [str(e)].
    [KeyboardInterrupt], [SystemExit] and [GeneratorExit] are not instances
    of [Exception] and are outside the model. *)
Record PyExc := mkExc { exc_type : string; exc_str : string }.

Definition TypeError (msg : string) : PyExc := mkExc "TypeError" msg.
Definition ValueError (msg : string) : PyExc := mkExc "ValueError" msg.
Definition AttributeError (msg : string) : PyExc := mkExc "AttributeError" msg.
Definition KeyError (msg : string) : PyExc := mkExc "KeyError" msg.
Definition PermissionError (msg : string) : PyExc := mkExc "PermissionError" msg.
Definition FileNotFoundError (msg : string) : PyExc := mkExc "FileNotFoundError" msg.
Definition FileExistsError (msg : string) : PyExc := mkExc "FileExistsError" msg.
Definition OverflowError (msg : string) : PyExc := mkExc "OverflowError" msg.
Definition MemoryError (msg : string) : PyExc := mkExc "MemoryError" msg.
Definition OSError (msg : string) : PyExc := mkExc "OSError" msg.

(** ** HTTP messages *)

(** What the handler reads of a request: [self.command], [self.path],
    [self.headers['Content-Length']] ([None] when the header is absent) and
    the bytes the client sends on the connection after the headers. *)
Record HTTPRequest := mkRequest {
  command : string;
  path : string;
  content_length : option string;
  rfile : bytes
}.

Inductive body :=
| NoBody
| JsonBody (data : pyval)                      (* json.dumps(data).encode('utf-8') *)
| ErrorPage (code : Z) (message : string).     (* the page send_error renders *)

Record Response := mkResponse {
  status : Z;
  headers : list (string * string);
  content : body
}.

(** ** The model object *)

(** [model.generate(audio_path)] returns an object whose [text] is the
    transcription, or raises.  The call reads the audio file, so its result
    depends on the file system. *)
Inductive GenResult :=
| GenText (text : string)
| GenRaise (e : PyExc).

Record Model := mkModel {
  generate : gmap string bytes → pyval → GenResult
}.

(** ** Effects *)

Inductive Event :=
| EvPrint (line : string)
| EvAcquire                                    (* model_lock.__enter__ returned *)
| EvGenerate (audio_path : pyval) (r : GenResult)
                                               (* model.generate(audio_path) and what it did *)
| EvRelease                                    (* model_lock.__exit__ *)
| EvTempfile (name : string)                   (* NamedTemporaryFile created name *)
| EvWrite (name : string) (data : bytes)       (* f.write(data) *)
| EvUnlink (name : string)                     (* os.unlink(name) was called *)
| EvResponse (r : Response).                   (* status line, headers and body *)

(** The process state: the three globals of the module, the part of the
    file system the program touches, and the log of effects.
    [unlink_denied] is the set of paths on which [os.unlink] fails;
    [tmp_counter] is the index of the next random name [tempfile] draws for
    a file it creates. *)
Record World := mkWorld {
  model : option Model;
  model_loaded : bool;
  model_lock : bool;
  files : gmap string bytes;
  unlink_denied : gset string;
  tmp_counter : nat;
  trace : list Event
}.

Definition set_model (m : option Model) (w : World) : World :=
  mkWorld m (model_loaded w) (model_lock w) (files w) (unlink_denied w)
          (tmp_counter w) (trace w).
Definition set_model_loaded (b : bool) (w : World) : World :=
  mkWorld (model w) b (model_lock w) (files w) (unlink_denied w)
          (tmp_counter w) (trace w).
Definition set_model_lock (b : bool) (w : World) : World :=
  mkWorld (model w) (model_loaded w) b (files w) (unlink_denied w)
          (tmp_counter w) (trace w).
Definition set_files (fs : gmap string bytes) (w : World) : World :=
  mkWorld (model w) (model_loaded w) (model_lock w) fs (unlink_denied w)
          (tmp_counter w) (trace w).
Definition set_tmp_counter (n : nat) (w : World) : World :=
  mkWorld (model w) (model_loaded w) (model_lock w) (files w) (unlink_denied w)
          n (trace w).
Definition emit (evs : list Event) (w : World) : World :=
  mkWorld (model w) (model_loaded w) (model_lock w) (files w) (unlink_denied w)
          (tmp_counter w) (trace w ++ evs).

(** The state of the module right after import (lines 18-20), on a given
    file system. *)
Definition initial_world (fs : gmap string bytes) (denied : gset string) : World :=
  mkWorld None false false fs denied 0 [].

(** ** The monad *)

(** A call returns, raises, or blocks forever (only [model_lock.acquire] on
    a held lock does, when no other thread is there to release it). *)
Inductive outcome (A : Type) :=
| Return (a : A)
| Raise (e : PyExc)
| Blocked.
Arguments Return {A} a.
Arguments Raise {A} e.
Arguments Blocked {A}.

Definition M (A : Type) : Type := World → outcome A * World.

Definition ret {A} (a : A) : M A := λ w, (Return a, w).
Definition raise {A} (e : PyExc) : M A := λ w, (Raise e, w).
Definition bind {A B} (c : M A) (k : A → M B) : M B :=
  λ w, match c w with
       | (Return a, w') => k a w'
       | (Raise e, w') => (Raise e, w')
       | (Blocked, w') => (Blocked, w')
       end.

Declare Scope py_scope.
Delimit Scope py_scope with py.
Notation "x <- c ;; k" := (bind c (λ x, k))
  (at level 100, c at next level, right associativity) : py_scope.
Notation "c ;; k" := (bind c (λ _, k))
  (at level 100, right associativity) : py_scope.
Local Open Scope py_scope.

Definition get {A} (f : World → A) : M A := λ w, (Return (f w), w).
Definition modify (f : World → World) : M unit := λ w, (Return tt, f w).
Definition lift_result {A} (r : PyExc + A) : M A :=
  match r with inl e => raise e | inr a => ret a end.

(** [try: body  except Exception as e: handler e].  The bare [except:] of
    line 102 is the same combinator: every [PyExc] is an [Exception]. *)
Definition try_except {A} (body : M A) (handler : PyExc → M A) : M A :=
  λ w, match body w with
       | (Raise e, w') => handler e w'
       | r => r
       end.

(** [try: body  finally: fin].  The outcome of [body], a [return] included,
    is kept unless [fin] itself raises. *)
Definition try_finally {A} (body : M A) (fin : M unit) : M A :=
  λ w, match body w with
       | (Blocked, w') => (Blocked, w')
       | (r, w') =>
           match fin w' with
           | (Return _, w'') => (r, w'')
           | (Raise e, w'') => (Raise e, w'')
           | (Blocked, w'') => (Blocked, w'')
           end
       end.

(** [threading.Lock]: [acquire] waits until the lock is free. *)
Definition acquire : M unit :=
  λ w, if model_lock w then (Blocked, w)
       else (Return tt, emit [EvAcquire] (set_model_lock true w)).
Definition release : M unit :=
  modify (λ w, emit [EvRelease] (set_model_lock false w)).

(** [with model_lock: body] *)
Definition with_model_lock {A} (body : M A) : M A :=
  acquire ;; try_finally body release.

Definition print (line : string) : M unit := modify (emit [EvPrint line]).

(** ** The standard library the handlers call *)

(** The program is parametric in these functions of the Python standard
    library and of the machine it runs on, which are not part of the
    repository:
    - [urlparse_path s] is [urlparse(s).path], or the exception [urlparse]
      raises on a target it rejects ([ValueError] on an unbalanced bracket
      in the host part, for one);
    - [py_int s] is [int(s)] on a string, [None] when it raises [ValueError];
    - [json_loads b] is [json.loads(b.decode('utf-8'))]; both steps raise
      subclasses of [ValueError] on malformed input;
    - [read_max] is the largest [n] for which [rfile.read(n)] gets its
      buffer of [n] bytes: above it the read raises [MemoryError];
    - [gettempdir] and [random_name] are the directory and the random
      characters [tempfile] builds a file name from, [TMP_MAX] the number of
      names it tries before it gives up;
    - [create_error name] is the exception, if any, with which the system
      refuses to create a file under the free name [name] (a directory that
      cannot be written, a full disk);
    - [write_error name data] is the exception, if any, with which writing
      [data] to the new file [name] and closing it fails (a full disk). *)
Class PyLib := {
  urlparse_path : string → PyExc + string;
  py_int : string → option Z;
  json_loads : bytes → PyExc + pyval;
  read_max : Z;
  gettempdir : string;
  random_name : nat → string;
  TMP_MAX : nat;
  create_error : string → option PyExc;
  write_error : string → bytes → option PyExc
}.

(** [int(self.headers['Content-Length'])]: a missing header is [None], on
    which [int] raises [TypeError]. *)
Definition int_of_header `{PyLib} (h : option string) : PyExc + Z :=
  match h with
  | None =>
      inl (TypeError "int() argument must be a string, a bytes-like object or a real number, not 'NoneType'")
  | Some s =>
      match py_int s with
      | Some n => inr n
      | None => inl (ValueError ("invalid literal for int() with base 10: " +:+ s))
      end
  end.

(** The largest value of a [Py_ssize_t] on a 64-bit build. *)
Definition ssize_max : Z := 2 ^ 63 - 1.

(** [self.rfile.read(n)] on a buffered reader: [ValueError] below [-1],
    everything for [-1]; otherwise a buffer of [n] bytes is allocated
    first, which raises [OverflowError] from [ssize_max] on and
    [MemoryError] above [read_max], and the read returns [n] bytes, fewer
    at end of stream.  [stream] holds the bytes the client sends before it
    closes its side. *)
Definition rfile_read `{PyLib} (stream : bytes) (n : Z) : PyExc + bytes :=
  if (n <? -1)%Z then inl (ValueError "read length must be non-negative or -1")
  else if (n =? -1)%Z then inr stream
  else if (ssize_max <=? n)%Z
       then inl (OverflowError "cannot fit 'int' into an index-sized integer")
  else if (read_max <? n)%Z then inl (MemoryError "")
  else inr (take (Z.to_nat n) stream).

(** Lines 87-88 and 106-107: the body as the handler reads it. *)
Definition post_data_of `{PyLib} (self : HTTPRequest) : PyExc + bytes :=
  match int_of_header (content_length self) with
  | inl e => inl e
  | inr n => rfile_read (rfile self) n
  end.

(** Lines 106-108: the body decoded, or the exception raised on the way. *)
Definition json_body `{PyLib} (self : HTTPRequest) : PyExc + pyval :=
  match post_data_of self with
  | inl e => inl e
  | inr post_data => json_loads post_data
  end.

(** ** Operations on Python values *)

Definition dict_get (key : string) (d : list (string * pyval)) : option pyval :=
  snd <$> find (λ kv, String.eqb (fst kv) key) d.

Definition dict_has (key : string) (d : list (string * pyval)) : bool :=
  existsb (λ kv, String.eqb (fst kv) key) d.

Definition is_str (s : string) (v : pyval) : bool :=
  match v with PStr s' => String.eqb s' s | _ => false end.

Definition is_substring (s t : string) : bool :=
  match String.index 0 s t with Some _ => true | None => false end.

(** [key in data] : membership among the keys of a dict, the elements of a
    list, the substrings of a str; [TypeError] on the other JSON values. *)
Definition py_contains (key : string) (data : pyval) : PyExc + bool :=
  match data with
  | PDict d => inr (dict_has key d)
  | PList l => inr (existsb (is_str key) l)
  | PStr s => inr (is_substring key s)
  | PNone => inl (TypeError "argument of type 'NoneType' is not iterable")
  | PBool _ => inl (TypeError "argument of type 'bool' is not iterable")
  | PInt _ => inl (TypeError "argument of type 'int' is not iterable")
  | PFloat _ => inl (TypeError "argument of type 'float' is not iterable")
  end.

(** [data[key]] for a string key. *)
Definition py_getitem (data : pyval) (key : string) : PyExc + pyval :=
  match data with
  | PDict d =>
      match dict_get key d with
      | Some v => inr v
      | None => inl (KeyError key)
      end
  | PList _ => inl (TypeError "list indices must be integers or slices, not str")
  | PStr _ => inl (TypeError "string indices must be integers, not 'str'")
  | PNone => inl (TypeError "'NoneType' object is not subscriptable")
  | PBool _ => inl (TypeError "'bool' object is not subscriptable")
  | PInt _ => inl (TypeError "'int' object is not subscriptable")
  | PFloat _ => inl (TypeError "'float' object is not subscriptable")
  end.

(** ** File system *)

(** The names [tempfile] builds: directory, prefix [tmp], random
    characters and the suffix. *)
Definition temp_stem `{PyLib} (n : nat) : string :=
  gettempdir +:+ "/tmp" +:+ random_name n.

Definition temp_name `{PyLib} (n : nat) (suffix : string) : string :=
  temp_stem n +:+ suffix.

(** The loop of [tempfile._mkstemp_inner]: the candidate names are tried
    in turn and the file is opened with [O_EXCL] under the first name that
    is not taken; any other failure of that [open] leaves the loop, and
    after [attempts] names that are all taken the loop gives up with
    [FileExistsError].  The result is the name and the index of the next
    random name. *)
Fixpoint mkstemp_inner `{PyLib} (attempts n : nat) (fs : gmap string bytes)
  (suffix : string) : PyExc + (string * nat) :=
  match attempts with
  | O => inl (FileExistsError "No usable temporary file name found")
  | S attempts' =>
      match fs !! temp_name n suffix with
      | Some _ => mkstemp_inner attempts' (S n) fs suffix
      | None =>
          match create_error (temp_name n suffix) with
          | Some e => inl e
          | None => inr (temp_name n suffix, S n)
          end
      end
  end.

(** [tempfile.NamedTemporaryFile(suffix=..., delete=False)]: a new empty
    file under a name no file has, or the exception of the loop.  (Only a
    creation that succeeds advances [tmp_counter]: the names a failed
    creation drew are not counted, and the state is then as before.) *)
Definition NamedTemporaryFile `{PyLib} (suffix : string) : M string :=
  λ w, match mkstemp_inner TMP_MAX (tmp_counter w) (files w) suffix with
       | inr (name, next) =>
           (Return name,
            emit [EvTempfile name]
              (set_files (<[name := []]> (files w)) (set_tmp_counter next w)))
       | inl e => (Raise e, w)
       end.

(** [f.write(data)] on the file just created, and the close at the end of
    the [with] block of lines 91-93, which flushes the buffer.  When either
    fails the exception leaves the block and the file stays on disk.  (How
    much of the data reached the file before the failure is not tracked:
    the file is left empty here, and the statements about a failed write
    only say that it exists.) *)
Definition file_write `{PyLib} (name : string) (data : bytes) : M unit :=
  λ w, match write_error name data with
       | Some e => (Raise e, w)
       | None =>
           (Return tt,
            emit [EvWrite name data]
              (set_files (<[name := (files w !!! name) ++ data]> (files w)) w))
       end.

(** [os.unlink(name)] *)
Definition os_unlink (name : string) : M unit :=
  λ w, let w1 := emit [EvUnlink name] w in
       match files w !! name with
       | None => (Raise (FileNotFoundError name), w1)
       | Some _ =>
           if decide (name ∈ unlink_denied w)
           then (Raise (PermissionError name), w1)
           else (Return tt, set_files (delete name (files w1)) w1)
       end.

(** ** The program *)

Definition model_id : string := "mlx-community/parakeet-tdt-0.6b-v2".

(** [load_parakeet_model] (lines 22-34).  [load_model] is what the import
    and the call [load_model(model_id)] of lines 27-28 produce: the model
    object, or the exception one of them raises. *)
Definition load_parakeet_model (load_model : PyExc + Model) : M bool :=
  print "Loading Parakeet model..." ;;
  try_except
    (m <- lift_result load_model ;;
     modify (set_model (Some m)) ;;
     modify (set_model_loaded true) ;;
     print "Parakeet model loaded successfully!" ;;
     ret true)
    (λ e,
     print ("Error loading model: " +:+ exc_str e) ;;
     ret false).

(** [model.generate(audio_path)] followed by [result.text] (lines 45-46).
    The global is read again here, as the source does. *)
Definition model_generate (audio_path : pyval) : M string :=
  λ w, match model w with
       | None =>
           (Raise (AttributeError "'NoneType' object has no attribute 'generate'"), w)
       | Some m =>
           let r := generate m (files w) audio_path in
           let w1 := emit [EvGenerate audio_path r] w in
           match r with
           | GenText text => (Return text, w1)
           | GenRaise e => (Raise e, w1)
           end
       end.

Definition not_loaded_result : pyval :=
  PDict [("error", PStr "Model not loaded"); ("text", PStr "")].
Definition text_result (text : string) : pyval :=
  PDict [("text", PStr text); ("error", PNone)].
Definition error_result (e : PyExc) : pyval :=
  PDict [("error", PStr (exc_str e)); ("text", PStr "")].

(** The dict [transcribe_audio] builds from what the model call did. *)
Definition result_of (r : GenResult) : pyval :=
  match r with
  | GenText text => text_result text
  | GenRaise e => error_result e
  end.

(** [transcribe_audio] (lines 36-48) *)
Definition transcribe_audio (audio_path : pyval) : M pyval :=
  m <- get model ;;
  match m with
  | None => ret not_loaded_result
  | Some _ =>
      try_except
        (with_model_lock
           (text <- model_generate audio_path ;;
            ret (text_result text)))
        (λ e, ret (error_result e))
  end.

(** [send_json_response] (lines 57-63): status line, the two headers, the
    encoded body.  (The [Server] and [Date] headers that [send_response]
    adds on its own are left out.) *)
Definition json_headers : list (string * string) :=
  [("Content-Type", "application/json"); ("Access-Control-Allow-Origin", "*")].

Definition json_response (data : pyval) (status : Z) : Response :=
  mkResponse status json_headers (JsonBody data).

Definition send_json_response (data : pyval) (status : Z) : M unit :=
  modify (emit [EvResponse (json_response data status)]).

Definition not_found : pyval := PDict [("error", PStr "Not found")].
Definition no_path : pyval := PDict [("error", PStr "No path provided")].

(** [do_GET] (lines 65-80) *)
Definition do_GET `{PyLib} (self : HTTPRequest) : M unit :=
  parsed_path <- lift_result (urlparse_path (path self)) ;;
  if String.eqb parsed_path "/health" then
    loaded <- get model_loaded ;;
    send_json_response
      (PDict [("status", PStr "ok"); ("model_loaded", PBool loaded)]) 200
  else if String.eqb parsed_path "/status" then
    loaded <- get model_loaded ;;
    send_json_response
      (PDict [("model_loaded", PBool loaded);
              ("model_name", PStr "parakeet-tdt-0.6b-v2")]) 200
  else
    send_json_response not_found 404.

(** [do_POST] (lines 82-118) *)
Definition do_POST `{PyLib} (self : HTTPRequest) : M unit :=
  parsed_path <- lift_result (urlparse_path (path self)) ;;
  if String.eqb parsed_path "/transcribe" then
    content_length <- lift_result (int_of_header (content_length self)) ;;
    post_data <- lift_result (rfile_read (rfile self) content_length) ;;
    temp_path <- (f <- NamedTemporaryFile ".wav" ;;
                  file_write f post_data ;;
                  ret f) ;;
    try_finally
      (result <- transcribe_audio (PStr temp_path) ;;
       send_json_response result 200)
      (try_except (os_unlink temp_path) (λ _, ret tt))
  else if String.eqb parsed_path "/transcribe-file" then
    content_length <- lift_result (int_of_header (content_length self)) ;;
    post_data <- lift_result (rfile_read (rfile self) content_length) ;;
    data <- lift_result (json_loads post_data) ;;
    has_path <- lift_result (py_contains "path" data) ;;
    if negb has_path then
      send_json_response no_path 400
    else
      audio_path <- lift_result (py_getitem data "path") ;;
      result <- transcribe_audio audio_path ;;
      send_json_response result 200
  else
    send_json_response not_found 404.

(** [do_OPTIONS] (lines 120-126) *)
Definition cors_headers : list (string * string) :=
  [("Access-Control-Allow-Origin", "*");
   ("Access-Control-Allow-Methods", "GET, POST, OPTIONS");
   ("Access-Control-Allow-Headers", "Content-Type")].

Definition do_OPTIONS (self : HTTPRequest) : M unit :=
  modify (emit [EvResponse (mkResponse 200 cors_headers NoBody)]).

(** The dispatch [TranscriptionHandler] inherits from
    [BaseHTTPRequestHandler.handle_one_request], for a request that the
    inherited [parse_request] has accepted: the method [do_<command>] when
    the class has one, [send_error(501)] otherwise.  The class defines
    [do_GET], [do_POST] and [do_OPTIONS] and no other [do_] method.  (The
    error pages the inherited code sends before it dispatches, for a request
    line or headers it cannot parse, are outside this definition: an
    [HTTPRequest] is a request that has been parsed.) *)
Definition send_error (code : Z) (message : string) : M unit :=
  modify (emit [EvResponse
                  (mkResponse code
                     [("Content-Type", "text/html;charset=utf-8"); ("Connection", "close")]
                     (ErrorPage code message))]).

Definition handle_one_request `{PyLib} (self : HTTPRequest) : M unit :=
  if String.eqb (command self) "GET" then do_GET self
  else if String.eqb (command self) "POST" then do_POST self
  else if String.eqb (command self) "OPTIONS" then do_OPTIONS self
  else send_error 501 ("Unsupported method ('" +:+ command self +:+ "')").

(** The responses a stretch of the log holds. *)
Definition responses (evs : list Event) : list Response :=
  omap (λ ev, match ev with EvResponse r => Some r | _ => None end) evs.

(** ** The operations of the process *)

(** Everything the module can run on its state: the loader, the
    transcription function and the handler methods. *)
Inductive Op :=
| OpLoad (load_model : PyExc + Model)
| OpTranscribe (audio_path : pyval)
| OpGET (req : HTTPRequest)
| OpPOST (req : HTTPRequest)
| OpOPTIONS (req : HTTPRequest)
| OpRequest (req : HTTPRequest).

Definition run_op `{PyLib} (op : Op) (w : World) : World :=
  match op with
  | OpLoad r => snd (load_parakeet_model r w)
  | OpTranscribe a => snd (transcribe_audio a w)
  | OpGET req => snd (do_GET req w)
  | OpPOST req => snd (do_POST req w)
  | OpOPTIONS req => snd (do_OPTIONS req w)
  | OpRequest req => snd (handle_one_request req w)
  end.

Definition run_ops `{PyLib} (ops : list Op) (w : World) : World :=
  foldl (λ w op, run_op op w) w ops.

Definition successful_load (op : Op) : Prop :=
  ∃ m, op = OpLoad (inr m).

(** ** Threads running [transcribe_audio] *)

(** The sequential functions above describe one call.  To speak about
    several calls in flight the same function is cut at its scheduling
    points: a thread is at the test of line 39, waiting for the lock at line
    43, inside [model.generate] at line 45, leaving the [with] block, or
    done.  Each step is the corresponding primitive of the monad. *)
Module Threads.

Inductive pc :=
| AtEntry (audio_path : pyval)
| AtAcquire (audio_path : pyval)
| AtGenerate (audio_path : pyval)
| AtExit (r : GenResult)
| Finished (result : pyval).

(** One step of one thread on the shared state; [None] when the thread
    cannot move (it waits for the lock, or it has finished). *)
Definition thread_step (p : pc) (w : World) : option (pc * World) :=
  match p with
  | AtEntry a =>
      match model w with
      | None => Some (Finished not_loaded_result, w)
      | Some _ => Some (AtAcquire a, w)
      end
  | AtAcquire a =>
      match acquire w with
      | (Return _, w') => Some (AtGenerate a, w')
      | _ => None
      end
  | AtGenerate a =>
      match model_generate a w with
      | (Return text, w') => Some (AtExit (GenText text), w')
      | (Raise e, w') => Some (AtExit (GenRaise e), w')
      | (Blocked, _) => None
      end
  | AtExit r => Some (Finished (result_of r), snd (release w))
  | Finished _ => None
  end.

Fixpoint run_thread (fuel : nat) (p : pc) (w : World) : pc * World :=
  match fuel with
  | O => (p, w)
  | S fuel' =>
      match thread_step p w with
      | Some (p', w') => run_thread fuel' p' w'
      | None => (p, w)
      end
  end.

(** A thread is in the inference call at [AtGenerate]; it holds the lock
    from there until it has left the [with] block. *)
Definition in_inference (p : pc) : bool :=
  match p with AtGenerate _ => true | _ => false end.

Definition holds_lock (p : pc) : bool :=
  match p with AtGenerate _ | AtExit _ => true | _ => false end.

Record Pool := mkPool { threads : list pc; shared : World }.

(** Any thread may take its next step; a new call may start at any time. *)
Inductive pool_step : Pool → Pool → Prop :=
| step_thread P i p p' w' :
    threads P !! i = Some p →
    thread_step p (shared P) = Some (p', w') →
    pool_step P (mkPool (<[i := p']> (threads P)) w')
| step_spawn P a :
    pool_step P (mkPool (threads P ++ [AtEntry a]) (shared P)).

Definition is_entry (p : pc) : Prop := ∃ a, p = AtEntry a.

Definition initial (P : Pool) : Prop :=
  Forall is_entry (threads P) ∧ model_lock (shared P) = false.

(** The invariant of the lock: it is held exactly when one thread is
    between acquire and release, and then by that thread alone. *)
Definition lock_inv (P : Pool) : Prop :=
  if model_lock (shared P) then
    ∃ i p, threads P !! i = Some p ∧ holds_lock p = true ∧
           ∀ j q, threads P !! j = Some q → holds_lock q = true → j = i
  else
    ∀ j q, threads P !! j = Some q → holds_lock q = false.

End Threads.

(** ** The accept loop *)

(** [run_server] builds an [HTTPServer] and calls [serve_forever] (lines
    130 and 141).  [HTTPServer] has no threading mix-in: [serve_forever]
    accepts a connection and runs its handler to the end before it accepts
    the next.  [ThreadingHTTPServer] is the variant that starts a thread per
    connection; the source does not use it, it is here for comparison. *)
Module Server.

Inductive ServerClass := HTTPServer | ThreadingHTTPServer.

(** The class [run_server] instantiates. *)
Definition server_class : ServerClass := HTTPServer.

(** A connection and whether the client has sent its request in full:
    until then the handler's reads block. *)
Record Connection := mkConn {
  conn_id : nat;
  request : HTTPRequest;
  received : bool
}.

Record State := mkState {
  backlog : list Connection;    (* accepted by the kernel, not yet by the loop *)
  active : list Connection;     (* a handler is running *)
  closed : list nat;            (* the handler has returned *)
  world : World
}.

Definition mark_received (id : nat) (c : Connection) : Connection :=
  if Nat.eqb (conn_id c) id then mkConn (conn_id c) (request c) true else c.

Section WithLib.
Context `{PyLib}.

Inductive server_step (cls : ServerClass) : State → State → Prop :=
| step_accept S c bl :
    backlog S = c :: bl →
    cls = ThreadingHTTPServer ∨ active S = [] →
    server_step cls S (mkState bl (active S ++ [c]) (closed S) (world S))
| step_handle S i c o w' :
    active S !! i = Some c →
    received c = true →
    handle_one_request (request c) (world S) = (o, w') →
    o ≠ Blocked →
    server_step cls S
      (mkState (backlog S) (delete i (active S)) (closed S ++ [conn_id c]) w').

Inductive client_step : State → State → Prop :=
| step_connect S c :
    client_step S (mkState (backlog S ++ [c]) (active S) (closed S) (world S))
| step_send S id :
    client_step S
      (mkState (mark_received id <$> backlog S) (mark_received id <$> active S)
               (closed S) (world S)).

Definition step (cls : ServerClass) (S S' : State) : Prop :=
  server_step cls S S' ∨ client_step S S'.

(** [run_server] (lines 128-141): the transitions of the process once
    [serve_forever] runs, those of its clients included.  (Binding the port
    and the signal handlers are not modelled.) *)
Definition run_server : State → State → Prop := step server_class.

Definition initial (S : State) : Prop :=
  active S = [] ∧ closed S = [] ∧ model_lock (world S) = false.

(** The claim of parallel handling: whenever a connection whose request
    has arrived is waiting, the server gets to answering it on its own,
    whatever the other clients do or fail to do. *)
Definition handles_in_parallel (cls : ServerClass) : Prop :=
  ∀ S0 S c,
    initial S0 → rtc (step cls) S0 S →
    c ∈ backlog S → received c = true →
    ∃ S', rtc (server_step cls) S S' ∧ conn_id c ∈ closed S'.

End WithLib.

End Server.

(** ** A concrete standard library for closed examples *)

(** It agrees with Python on the inputs the examples use: request targets
    in origin form ([/path?query#fragment]) and the one target
    [http://[/health], which [urlparse] rejects; decimal integer literals;
    the two JSON documents below.  Its machine has 2 GiB for a read buffer,
    a disk that takes every write, and a [tempfile] that tries 100 names
    (Python tries at least 10000). *)
Fixpoint cut_query (s : string) : string :=
  match s with
  | EmptyString => EmptyString
  | String c r =>
      if Ascii.eqb c "?"%char || Ascii.eqb c "#"%char then EmptyString
      else String c (cut_query r)
  end.

Definition digit_value (c : Ascii.ascii) : option Z :=
  let n := Ascii.nat_of_ascii c in
  if (48 <=? n)%nat && (n <=? 57)%nat then Some (Z.of_nat (n - 48)) else None.

Fixpoint digits_value (s : string) (acc : Z) : option Z :=
  match s with
  | EmptyString => Some acc
  | String c r =>
      match digit_value c with
      | Some d => digits_value r (10 * acc + d)
      | None => None
      end
  end.

Definition decimal_int (s : string) : option Z :=
  match s with
  | EmptyString => None
  | String "-"%char (String c r) => Z.opp <$> digits_value (String c r) 0
  | _ => digits_value s 0
  end.

Definition quote : Byte.byte := Byte.x22.

Definition empty_object_doc : bytes := list_byte_of_string "{}".

Definition path_doc (p : string) : bytes :=
  list_byte_of_string "{" ++ [quote] ++ list_byte_of_string "path" ++ [quote] ++
  list_byte_of_string ": " ++ [quote] ++ list_byte_of_string p ++ [quote] ++
  list_byte_of_string "}".

Definition bytes_eqb (a b : bytes) : bool :=
  String.eqb (string_of_list_byte a) (string_of_list_byte b).

Definition sample_path : string := "/nonexistent/file.wav".

Definition sample_json_loads (b : bytes) : PyExc + pyval :=
  if bytes_eqb b empty_object_doc then inr (PDict [])
  else if bytes_eqb b (path_doc sample_path) then inr (PDict [("path", PStr sample_path)])
  else inl (mkExc "JSONDecodeError" "Expecting value: line 1 column 1 (char 0)").

Definition bad_target : string := "http://[/health".

Definition sample_urlparse (s : string) : PyExc + string :=
  if String.eqb s bad_target then inl (ValueError "Invalid IPv6 URL")
  else inr (cut_query s).

Definition sample_lib : PyLib :=
  {| urlparse_path := sample_urlparse;
     py_int := decimal_int;
     json_loads := sample_json_loads;
     read_max := 2 ^ 31;
     gettempdir := "/tmp";
     random_name := λ n, "vs" +:+ pretty n;
     TMP_MAX := 100;
     create_error := λ _, None;
     write_error := λ _ _, None |}.

(** A model that transcribes every file that exists and fails on a path
    that does not. *)
Definition sample_model : Model :=
  mkModel (λ fs audio_path,
    match audio_path with
    | PStr p =>
        match fs !! p with
        | Some _ => GenText "hello world"
        | None => GenRaise (FileNotFoundError p)
        end
    | _ => GenRaise (TypeError "expected str")
    end).

Definition ready_world : World :=
  mkWorld (Some sample_model) true false ∅ ∅ 0 [].

(** Requests for the closed examples. *)
Definition get_health : HTTPRequest := mkRequest "GET" "/health?verbose=1" None [].
Definition get_status : HTTPRequest := mkRequest "GET" "/status" None [].
Definition get_unknown : HTTPRequest := mkRequest "GET" "/metrics" None [].
Definition post_unknown : HTTPRequest := mkRequest "POST" "/upload" None [].
Definition put_health : HTTPRequest := mkRequest "PUT" "/health" None [].

Definition riff : bytes := list_byte_of_string "RIFF".

Definition post_audio : HTTPRequest :=
  mkRequest "POST" "/transcribe" (Some "4") riff.
Definition post_audio_no_length : HTTPRequest :=
  mkRequest "POST" "/transcribe" None riff.
Definition post_empty_object : HTTPRequest :=
  mkRequest "POST" "/transcribe-file" (Some "2") empty_object_doc.
Definition post_path : HTTPRequest :=
  mkRequest "POST" "/transcribe-file" (Some "33") (path_doc sample_path).
Definition post_garbage : HTTPRequest :=
  mkRequest "POST" "/transcribe-file" (Some "4") riff.

(** Two calls in flight: the first is inside the model, the second waits
    for the lock. *)
Definition pool_start : Threads.Pool :=
  Threads.mkPool [Threads.AtEntry (PStr "a.wav"); Threads.AtEntry (PStr "b.wav")]
                 ready_world.
Definition pool_running : Threads.Pool :=
  Threads.mkPool [Threads.AtGenerate (PStr "a.wav"); Threads.AtAcquire (PStr "b.wav")]
                 (emit [EvAcquire] (set_model_lock true ready_world)).

(** Two connections: the first client has connected but not sent its
    request, the second has sent a complete one. *)
Definition slow_conn : Server.Connection := Server.mkConn 1 get_health false.
Definition ready_conn : Server.Connection := Server.mkConn 2 get_health true.
Definition server_start : Server.State :=
  Server.mkState [slow_conn; ready_conn] [] [] ready_world.
Definition server_waiting : Server.State :=
  Server.mkState [ready_conn] [slow_conn] [] ready_world.

(** ** Closed forms *)

(** What a call of [transcribe_audio] on [a] in state [w] amounts to: the
    answer of the model if there is one, the dict returned, the effects. *)
Definition inference (a : pyval) (w : World) : option GenResult :=
  (λ m, generate m (files w) a) <$> model w.

Definition transcript (a : pyval) (w : World) : pyval :=
  match inference a w with
  | Some r => result_of r
  | None => not_loaded_result
  end.

Definition transcribe_events (a : pyval) (w : World) : list Event :=
  match inference a w with
  | Some r => [EvAcquire; EvGenerate a r; EvRelease]
  | None => []
  end.

(** What [rfile.read(n)] returns when it returns, and the lengths for
    which it does. *)
Definition read_result (stream : bytes) (n : Z) : bytes :=
  if (n =? -1)%Z then stream else take (Z.to_nat n) stream.

Definition readable_length `{PyLib} (n : Z) : Prop :=
  n = (-1)%Z ∨ (0 ≤ n)%Z ∧ (n < ssize_max)%Z ∧ (n ≤ read_max)%Z.

(** The name line 91 gives the temporary file, with the index of the next
    random name, or the exception with which the creation fails. *)
Definition mkstemp `{PyLib} (w : World) : PyExc + (string * nat) :=
  mkstemp_inner TMP_MAX (tmp_counter w) (files w) ".wav".

(** The state after line 91: the temporary file [name] exists and is
    empty. *)
Definition temp_created (name : string) (next : nat) (w : World) : World :=
  emit [EvTempfile name]
    (set_files (<[name := []]> (files w)) (set_tmp_counter next w)).

(** The state after lines 91-93: the temporary file exists and holds the
    body. *)
Definition temp_written (name : string) (next : nat) (data : bytes) (w : World)
  : World :=
  emit [EvTempfile name; EvWrite name data]
    (set_files (<[name := data]> (files w)) (set_tmp_counter next w)).

(** The state after lines 100-103: the file is gone unless the deletion
    failed. *)
Definition after_unlink (name : string) (w : World) : World :=
  if decide (name ∈ unlink_denied w) then emit [EvUnlink name] w
  else set_files (delete name (files w)) (emit [EvUnlink name] w).

(** A handler run with outcome [o] and effects [evs] answers every model
    call that raised with status 200 and the error dict. *)
Definition reports_failure (o : outcome unit) (evs : list Event) : Prop :=
  ∀ a e, EvGenerate a (GenRaise e) ∈ evs →
         o = Return tt ∧ responses evs = [json_response (error_result e) 200].

(** The readiness flag is set exactly when the global [model] holds an
    object. *)
Definition flag_agrees (w : World) : Prop :=
  model_loaded w = true ↔ is_Some (model w).

(** ** Frame conditions *)

(** [c] leaves the component [f] of the state as it found it. *)
Definition keeps {A B} (f : World → B) (c : M A) : Prop :=
  ∀ w, f (snd (c w)) = f w.

(** [c], started with the lock free, does not block and leaves the lock
    free. *)
Definition lock_safe {A} (c : M A) : Prop :=
  ∀ w, model_lock w = false →
       fst (c w) ≠ Blocked ∧ model_lock (snd (c w)) = false.

(** ** Start-up *)

(** How the [__main__] block (lines 143-151) ends: it calls
    [run_server(port)], or it leaves through [sys.exit(status)]. *)
Inductive Startup :=
| RunServer (port : Z)
| SysExit (status : Z).

(** [int(os.environ.get('VOICESCRIBE_PORT', 8765))] (line 147): the default
    is the integer 8765, a value of the variable goes through [int]. *)
Definition port_of_environ `{PyLib} (environ : gmap string string) : PyExc + Z :=
  match environ !! "VOICESCRIBE_PORT" with
  | None => inr 8765
  | Some s =>
      match py_int s with
      | Some n => inr n
      | None => inl (ValueError ("invalid literal for int() with base 10: " +:+ s))
      end
  end.

(** The [__main__] block, up to the call of [run_server]. *)
Definition main `{PyLib} (load_model : PyExc + Model) (environ : gmap string string)
  : M Startup :=
  loaded <- load_parakeet_model load_model ;;
  if loaded then
    port <- lift_result (port_of_environ environ) ;;
    ret (RunServer port)
  else
    print "Failed to load model. Exiting." ;;
    ret (SysExit 1).

(** The state in which [serve_forever] starts: the world [main] leaves,
    some connections already queued, no handler running. *)
Definition serving (queued : list Server.Connection) (w : World) : Server.State :=
  Server.mkState queued [] [] w.

(** ** Reading the log *)

(** The state of the lock as a log tells it, starting from [held]: an
    acquire needs the lock free, a release and a model call need it held.
    [None]: no lock produces this log. *)
Fixpoint lock_after (held : bool) (evs : list Event) : option bool :=
  match evs with
  | [] => Some held
  | EvAcquire :: evs' => if held then None else lock_after true evs'
  | EvGenerate _ _ :: evs' => if held then lock_after true evs' else None
  | EvRelease :: evs' => if held then lock_after false evs' else None
  | _ :: evs' => lock_after held evs'
  end.

Definition is_finished (p : Threads.pc) : bool :=
  match p with Threads.Finished _ => true | _ => false end.

(** The steps a thread has left at most: test, acquire, call, release. *)
Definition remaining (p : Threads.pc) : nat :=
  match p with
  | Threads.AtEntry _ => 4
  | Threads.AtAcquire _ => 3
  | Threads.AtGenerate _ => 2
  | Threads.AtExit _ => 1
  | Threads.Finished _ => 0
  end.

(** A second library for closed examples, whose [json.loads] also knows
    the document [["path"]]. *)
Definition array_doc : bytes :=
  list_byte_of_string "[" ++ [quote] ++ list_byte_of_string "path" ++ [quote] ++
  list_byte_of_string "]".

Definition array_json_loads (b : bytes) : PyExc + pyval :=
  if bytes_eqb b array_doc then inr (PList [PStr "path"]) else sample_json_loads b.

Definition array_lib : PyLib :=
  {| urlparse_path := sample_urlparse;
     py_int := decimal_int;
     json_loads := array_json_loads;
     read_max := 2 ^ 31;
     gettempdir := "/tmp";
     random_name := λ n, "vs" +:+ pretty n;
     TMP_MAX := 100;
     create_error := λ _, None;
     write_error := λ _ _, None |}.

Definition post_array : HTTPRequest :=
  mkRequest "POST" "/transcribe-file" (Some "8") array_doc.

(** A third one, whose [json.loads] also knows the document [null]. *)
Definition null_doc : bytes := list_byte_of_string "null".

Definition null_json_loads (b : bytes) : PyExc + pyval :=
  if bytes_eqb b null_doc then inr PNone else sample_json_loads b.

Definition null_lib : PyLib :=
  {| urlparse_path := sample_urlparse;
     py_int := decimal_int;
     json_loads := null_json_loads;
     read_max := 2 ^ 31;
     gettempdir := "/tmp";
     random_name := λ n, "vs" +:+ pretty n;
     TMP_MAX := 100;
     create_error := λ _, None;
     write_error := λ _ _, None |}.

Definition post_null : HTTPRequest :=
  mkRequest "POST" "/transcribe-file" (Some "4") null_doc.

(** The empty object sent without a [Content-Length] header. *)
Definition post_empty_object_no_length : HTTPRequest :=
  mkRequest "POST" "/transcribe-file" None empty_object_doc.

(** A machine whose disk is full: every write fails. *)
Definition full_disk_lib : PyLib :=
  {| urlparse_path := sample_urlparse;
     py_int := decimal_int;
     json_loads := sample_json_loads;
     read_max := 2 ^ 31;
     gettempdir := "/tmp";
     random_name := λ n, "vs" +:+ pretty n;
     TMP_MAX := 100;
     create_error := λ _, None;
     write_error := λ _ _, Some (OSError "[Errno 28] No space left on device") |}.

(** A request whose target [urlparse] rejects. *)
Definition get_bad_target : HTTPRequest := mkRequest "GET" bad_target None [].


(** A state in which the first name [tempfile] draws is taken. *)
Definition crowded_world : World :=
  mkWorld (Some sample_model) true false {[ "/tmp/tmpvs0.wav" := riff ]} ∅ 0 [].

(** A state in which another thread holds the lock. *)
Definition busy_world : World :=
  mkWorld (Some sample_model) true true ∅ ∅ 0 [].

(** The state [main] leaves after a successful load, and the server right
    after it has accepted its first connection. *)
Definition loaded_world : World :=
  emit [EvPrint "Loading Parakeet model...";
        EvPrint "Parakeet model loaded successfully!"]
    (set_model_loaded true (set_model (Some sample_model) (initial_world ∅ ∅))).

Definition server_accepted : Server.State :=
  Server.mkState [] [ready_conn] [] loaded_world.

(** The HTTP requests a list of operations is made of. *)
Definition requests (reqs : list HTTPRequest) : list Op := OpRequest <$> reqs.

(** ** The routes as a relation *)

(** The response a handler run may send for a request, route by route:
    the five [if] branches of [do_GET] and [do_POST], which need the target
    parsed, [do_OPTIONS], and the inherited answer to any other method. *)
Definition answered `{PyLib} (self : HTTPRequest) (r : Response) : Prop :=
  (∃ route, urlparse_path (path self) = inr route ∧
     ((command self = "GET" ∧ (route = "/health" ∨ route = "/status") ∧
       ∃ d, r = json_response (PDict d) 200)
      ∨ (command self = "GET" ∧ route ≠ "/health" ∧ route ≠ "/status" ∧
         r = json_response not_found 404)
      ∨ (command self = "POST" ∧ (route = "/transcribe" ∨ route = "/transcribe-file") ∧
         ∃ d, r = json_response (PDict d) 200)
      ∨ (command self = "POST" ∧ route = "/transcribe-file" ∧
         r = json_response no_path 400)
      ∨ (command self = "POST" ∧ route ≠ "/transcribe" ∧ route ≠ "/transcribe-file" ∧
         r = json_response not_found 404)))
  ∨ (command self = "OPTIONS" ∧ r = mkResponse 200 cors_headers NoBody)
  ∨ (command self ≠ "GET" ∧ command self ≠ "POST" ∧ command self ≠ "OPTIONS" ∧
     ∃ hdrs message, r = mkResponse 501 hdrs (ErrorPage 501 message)).

(** * Properties *)

(** ** The state record *)

Lemma emit_emit evs1 evs2 w : emit evs2 (emit evs1 w) = emit (evs1 ++ evs2) w.
Proof. destruct w; unfold emit; simpl. by rewrite app_assoc. Qed.

Lemma emit_nil w : emit [] w = w.
Proof. destruct w; unfold emit; simpl. by rewrite app_nil_r. Qed.

Lemma unlock_lock_emit evs1 evs2 w :
  model_lock w = false →
  emit evs2 (set_model_lock false (emit evs1 (set_model_lock true w)))
  = emit (evs1 ++ evs2) w.
Proof.
  destruct w; unfold emit, set_model_lock; simpl.
  intros ->. by rewrite app_assoc.
Qed.

Lemma trace_emit evs w : trace (emit evs w) = trace w ++ evs.
Proof. done. Qed.

(** ** [transcribe_audio], one call *)

(** With no model the function returns at line 40 and touches nothing. *)
Lemma transcribe_audio_unloaded a w :
  model w = None →
  transcribe_audio a w = (Return not_loaded_result, w).
Proof. intros Hm. unfold transcribe_audio, bind, get. by rewrite Hm. Qed.

(** With a model and the lock free, the call takes the lock, runs the
    model, releases the lock and returns the dict for what the model did:
    the [return] of line 46 and the handler of line 48 both leave through
    the [with] block. *)
Lemma transcribe_audio_loaded a w m :
  model w = Some m →
  model_lock w = false →
  let r := generate m (files w) a in
  transcribe_audio a w
  = (Return (result_of r), emit [EvAcquire; EvGenerate a r; EvRelease] w).
Proof.
  intros Hm Hl r.
  unfold transcribe_audio, bind, get, try_except, with_model_lock, bind,
    try_finally, acquire, model_generate, release, modify, ret.
  rewrite Hm, Hl. simpl. rewrite Hm. fold r.
  destruct r as [text|e]; simpl;
    by rewrite emit_emit, unlock_lock_emit.
Qed.

(** ** [transcribe_audio], many calls in flight *)

Section ThreadProperties.
Import Threads.

Lemma thread_step_entry a w m :
  model w = Some m → thread_step (AtEntry a) w = Some (AtAcquire a, w).
Proof. intros Hm. simpl. by rewrite Hm. Qed.

Lemma thread_step_acquire a w :
  model_lock w = false →
  thread_step (AtAcquire a) w
  = Some (AtGenerate a, emit [EvAcquire] (set_model_lock true w)).
Proof. intros Hl. simpl. unfold acquire. by rewrite Hl. Qed.

Lemma thread_step_generate a w m :
  model w = Some m →
  let r := generate m (files w) a in
  thread_step (AtGenerate a) w = Some (AtExit r, emit [EvGenerate a r] w).
Proof.
  intros Hm r. simpl. unfold model_generate. rewrite Hm. fold r. by destruct r.
Qed.

(** A thread that runs alone from the entry goes through the steps of the
    sequential function and ends with its result and its effects. *)
Lemma run_thread_alone a w :
  model_lock w = false →
  ∃ result w',
    transcribe_audio a w = (Return result, w') ∧
    run_thread 4 (AtEntry a) w = (Finished result, w').
Proof.
  intros Hl. destruct (model w) as [m|] eqn:Hm.
  - eexists _, _. split; [by apply transcribe_audio_loaded|].
    cbn [run_thread].
    rewrite (thread_step_entry a w m Hm), (thread_step_acquire a w Hl).
    rewrite (thread_step_generate a (emit [EvAcquire] (set_model_lock true w)) m Hm).
    cbn [thread_step release modify snd].
    by rewrite !emit_emit, unlock_lock_emit.
  - eexists _, _. split; [by apply transcribe_audio_unloaded|].
    simpl. by rewrite Hm.
Qed.

Lemma initial_lock_inv P : initial P → lock_inv P.
Proof.
  intros [Hentry Hl]. unfold lock_inv. rewrite Hl. intros j q Hq.
  rewrite Forall_lookup in Hentry. by destruct (Hentry j q Hq) as [a ->].
Qed.

(** What a step does to the lock, by the position of the thread. *)
Lemma thread_step_lock p w p' w' :
  thread_step p w = Some (p', w') →
  match p with
  | AtEntry _ => model_lock w' = model_lock w ∧ holds_lock p' = false
  | AtAcquire _ => model_lock w = false ∧ model_lock w' = true ∧ holds_lock p' = true
  | AtGenerate _ => model_lock w' = model_lock w ∧ holds_lock p' = true
  | AtExit _ => model_lock w' = false ∧ holds_lock p' = false
  | Finished _ => False
  end.
Proof.
  destruct p as [a|a|a|r|res]; simpl.
  - destruct (model w); intros [= <- <-]; done.
  - unfold acquire. destruct (model_lock w) eqn:Hl; [done|].
    intros [= <- <-]. done.
  - unfold model_generate. destruct (model w) as [m|]; simpl.
    + destruct (generate m (files w) a); intros [= <- <-]; done.
    + intros [= <- <-]; done.
  - intros [= <- <-]. done.
  - done.
Qed.

Lemma lock_inv_step P P' : lock_inv P → pool_step P P' → lock_inv P'.
Proof.
  intros Hinv Hstep. destruct Hstep as [P i p p' w' Hi Hp | P a].
  - pose proof (lookup_lt_Some _ _ _ Hi) as Hlt.
    apply thread_step_lock in Hp.
    unfold lock_inv in *; simpl.
    assert (Hnew : ∀ j q, <[i:=p']> (threads P) !! j = Some q →
              (j = i ∧ q = p') ∨ (j ≠ i ∧ threads P !! j = Some q)).
    { intros j q Hq. apply list_lookup_insert_Some in Hq.
      destruct Hq as [(-> & -> & _)|[? ?]]; [by left|right; by split]. }
    destruct p as [a|a|a|r|res]; simpl in Hp.
    + (* line 39: the lock is not touched *)
      destruct Hp as [-> Hp']. destruct (model_lock (shared P)).
      * destruct Hinv as (i0 & p0 & Hi0 & Hh0 & Huniq).
        assert (i0 ≠ i) by (intros ->; rewrite Hi in Hi0; by simplify_eq).
        exists i0, p0. split_and!; [by rewrite list_lookup_insert_ne|done|].
        intros j q Hq Hh. destruct (Hnew j q Hq) as [[-> ->]|[? Hq']];
          [congruence|eauto].
      * intros j q Hq. destruct (Hnew j q Hq) as [[-> ->]|[? Hq']]; eauto.
    + (* line 43: the lock was free and is now held by this thread *)
      destruct Hp as (Hfree & -> & Hp'). rewrite Hfree in Hinv.
      exists i, p'. split_and!; [by apply list_lookup_insert_eq|done|].
      intros j q Hq Hh. destruct (Hnew j q Hq) as [[-> ->]|[? Hq']]; [done|].
      rewrite (Hinv j q Hq') in Hh. done.
    + (* line 45: the holder stays the holder *)
      destruct Hp as [-> Hp']. destruct (model_lock (shared P)).
      * destruct Hinv as (i0 & p0 & Hi0 & Hh0 & Huniq).
        assert (i = i0) as <- by (by apply (Huniq i _ Hi)).
        exists i, p'. split_and!; [by apply list_lookup_insert_eq|done|].
        intros j q Hq Hh. destruct (Hnew j q Hq) as [[-> ->]|[? Hq']]; eauto.
      * by specialize (Hinv i _ Hi).
    + (* leaving the with block: nobody holds the lock any more *)
      destruct Hp as [-> Hp']. destruct (model_lock (shared P)).
      * destruct Hinv as (i0 & p0 & Hi0 & Hh0 & Huniq).
        intros j q Hq. destruct (Hnew j q Hq) as [[-> ->]|[Hne Hq']]; [done|].
        destruct (holds_lock q) eqn:Hh; [|done].
        assert (i = i0) by (by apply (Huniq i _ Hi)).
        assert (j = i0) by (by apply (Huniq j _ Hq')). congruence.
      * by specialize (Hinv i _ Hi).
    + done.
  - unfold lock_inv in *; simpl.
    assert (Hnew : ∀ j q, (threads P ++ [AtEntry a]) !! j = Some q →
              threads P !! j = Some q ∨ q = AtEntry a).
    { intros j q Hq. apply lookup_snoc_Some in Hq.
      destruct Hq as [[_ ?]|[_ <-]]; [by left|by right]. }
    destruct (model_lock (shared P)).
    + destruct Hinv as (i0 & p0 & Hi0 & Hh0 & Huniq).
      exists i0, p0. split_and!; [by apply lookup_app_l_Some|done|].
      intros j q Hq Hh. destruct (Hnew j q Hq) as [Hq'| ->]; [eauto|done].
    + intros j q Hq. destruct (Hnew j q Hq) as [Hq'| ->]; [eauto|done].
Qed.

Lemma lock_inv_reachable P0 P : lock_inv P0 → rtc pool_step P0 P → lock_inv P.
Proof. intros Hinv Hsteps. induction Hsteps; eauto using lock_inv_step. Qed.

(** Two holders of the lock are the same thread. *)
Lemma lock_inv_exclusive P i j p q :
  lock_inv P →
  threads P !! i = Some p → threads P !! j = Some q →
  holds_lock p = true → holds_lock q = true → i = j.
Proof.
  unfold lock_inv. intros Hinv Hi Hj Hp Hq.
  destruct (model_lock (shared P)).
  - destruct Hinv as (i0 & p0 & _ & _ & Huniq).
    rewrite (Huniq i p Hi Hp), (Huniq j q Hj Hq). done.
  - rewrite (Hinv i p Hi) in Hp. done.
Qed.

Lemma in_inference_holds p : in_inference p = true → holds_lock p = true.
Proof. by destruct p. Qed.

End ThreadProperties.

(** C1.  Lock discipline of [transcribe_audio] on a loaded model.
    One call: the lock is taken first, the model runs next, the lock is
    released last, whether the model returned a text (the [return] inside
    the [with] block) or raised (the [except] clause), and the lock is free
    when the call is over.
    Many calls: in every state a pool of threads running [transcribe_audio]
    can reach, in any interleaving, at most one thread is inside the model
    call; a thread inside the call holds the lock; and the lock is free as
    soon as no thread is between acquire and release. *)
Theorem transcribe_audio_lock_discipline :
  (∀ a w m,
     model w = Some m → model_lock w = false →
     let r := generate m (files w) a in
     transcribe_audio a w
     = (Return (result_of r), emit [EvAcquire; EvGenerate a r; EvRelease] w)
     ∧ model_lock (snd (transcribe_audio a w)) = false)
  ∧
  (∀ P0 P,
     Threads.initial P0 → rtc Threads.pool_step P0 P →
     (∀ i j p q,
        Threads.threads P !! i = Some p → Threads.threads P !! j = Some q →
        Threads.in_inference p = true → Threads.in_inference q = true →
        i = j)
     ∧ (∀ i p,
          Threads.threads P !! i = Some p → Threads.in_inference p = true →
          model_lock (Threads.shared P) = true)
     ∧ ((∀ i p, Threads.threads P !! i = Some p → Threads.holds_lock p = false) →
        model_lock (Threads.shared P) = false)).
Proof.
  split.
  - intros a w m Hm Hl r.
    rewrite (transcribe_audio_loaded a w m Hm Hl). by split.
  - intros P0 P Hinit Hsteps.
    pose proof (lock_inv_reachable P0 P (initial_lock_inv P0 Hinit) Hsteps) as Hinv.
    split_and!.
    + intros i j p q Hi Hj Hp Hq.
      eapply lock_inv_exclusive; eauto using in_inference_holds.
    + intros i p Hi Hp. apply in_inference_holds in Hp.
      unfold Threads.lock_inv in Hinv.
      destruct (model_lock (Threads.shared P)); [done|].
      rewrite (Hinv i p Hi) in Hp. done.
    + intros Hnone. unfold Threads.lock_inv in Hinv.
      destruct (model_lock (Threads.shared P)); [|done].
      destruct Hinv as (i & p & Hi & Hp & _).
      rewrite (Hnone i p Hi) in Hp. done.
Qed.

(** ** What the functions leave alone *)

(** Components of the state that are neither the lock, the files, the
    counter of temporary names nor the log: the two globals [model] and
    [model_loaded].  Everything but the loader keeps them. *)
Section Frame.
Context {B : Type} (f : World → B).
Hypothesis f_emit : ∀ evs w, f (emit evs w) = f w.
Hypothesis f_lock : ∀ b w, f (set_model_lock b w) = f w.
Hypothesis f_files : ∀ fs w, f (set_files fs w) = f w.
Hypothesis f_tmp : ∀ n w, f (set_tmp_counter n w) = f w.

Lemma keeps_ret {A} (a : A) : keeps f (ret a).
Proof. done. Qed.

Lemma keeps_raise {A} e : keeps f (@raise A e).
Proof. done. Qed.

Lemma keeps_lift_result {A} (r : PyExc + A) : keeps f (lift_result r).
Proof. by destruct r. Qed.

Lemma keeps_get {A} (g : World → A) : keeps f (get g).
Proof. done. Qed.

Lemma keeps_bind {A C} (c : M A) (k : A → M C) :
  keeps f c → (∀ a, keeps f (k a)) → keeps f (bind c k).
Proof.
  intros Hc Hk w. unfold bind. specialize (Hc w).
  destruct (c w) as [[a|e|] w']; simpl in *; [|done..].
  by rewrite Hk.
Qed.

Lemma keeps_try_except {A} (c : M A) (h : PyExc → M A) :
  keeps f c → (∀ e, keeps f (h e)) → keeps f (try_except c h).
Proof.
  intros Hc Hh w. unfold try_except. specialize (Hc w).
  destruct (c w) as [[a|e|] w']; simpl in *; [done| |done].
  by rewrite Hh.
Qed.

Lemma keeps_try_finally {A} (c : M A) (fin : M unit) :
  keeps f c → keeps f fin → keeps f (try_finally c fin).
Proof.
  intros Hc Hfin w. unfold try_finally. specialize (Hc w).
  destruct (c w) as [[a|e|] w']; simpl in *; [| |done];
    specialize (Hfin w'); destruct (fin w') as [[[]|e'|] w'']; simpl in *;
    congruence.
Qed.

Lemma keeps_emit evs : keeps f (modify (emit evs)).
Proof. intros w. apply f_emit. Qed.

Lemma keeps_acquire : keeps f acquire.
Proof.
  intros w. unfold acquire. destruct (model_lock w); [done|].
  simpl. by rewrite f_emit, f_lock.
Qed.

Lemma keeps_release : keeps f release.
Proof. intros w. unfold release, modify. simpl. by rewrite f_emit, f_lock. Qed.

Lemma keeps_with_model_lock {A} (c : M A) :
  keeps f c → keeps f (with_model_lock c).
Proof.
  intros Hc. apply keeps_bind; [apply keeps_acquire|].
  intros _. apply keeps_try_finally; [done|apply keeps_release].
Qed.

Lemma keeps_model_generate a : keeps f (model_generate a).
Proof.
  intros w. unfold model_generate. destruct (model w) as [m|]; [|done].
  destruct (generate m (files w) a); simpl; apply f_emit.
Qed.

Lemma keeps_transcribe_audio a : keeps f (transcribe_audio a).
Proof.
  apply keeps_bind; [apply keeps_get|]. intros [m|]; [|apply keeps_ret].
  apply keeps_try_except; [|intros e; apply keeps_ret].
  apply keeps_with_model_lock.
  apply keeps_bind; [apply keeps_model_generate|]. intros text. apply keeps_ret.
Qed.

Lemma keeps_send_json_response data st : keeps f (send_json_response data st).
Proof. apply keeps_emit. Qed.

Lemma keeps_send_error code msg : keeps f (send_error code msg).
Proof. apply keeps_emit. Qed.

Lemma keeps_os_unlink name : keeps f (os_unlink name).
Proof.
  intros w. unfold os_unlink. destruct (files w !! name); [|apply f_emit].
  case_decide; simpl; [apply f_emit|]. by rewrite f_files, f_emit.
Qed.

Lemma keeps_do_OPTIONS self : keeps f (do_OPTIONS self).
Proof. apply keeps_emit. Qed.

Context `{PyLib}.

Lemma keeps_file_write name data : keeps f (file_write name data).
Proof.
  intros w. unfold file_write. destruct (write_error name data); [done|].
  simpl. by rewrite f_emit, f_files.
Qed.

Lemma keeps_NamedTemporaryFile suffix : keeps f (NamedTemporaryFile suffix).
Proof.
  intros w. unfold NamedTemporaryFile.
  destruct (mkstemp_inner _ _ _ _) as [e|[name next]]; [done|].
  simpl. by rewrite f_emit, f_files, f_tmp.
Qed.

Lemma keeps_do_GET self : keeps f (do_GET self).
Proof.
  unfold do_GET.
  apply keeps_bind; [apply keeps_lift_result|]. intros parsed_path.
  repeat case_match;
    repeat first [ apply keeps_bind; [apply keeps_get|intros ?]
                 | apply keeps_send_json_response ].
Qed.

Lemma keeps_do_POST self : keeps f (do_POST self).
Proof.
  unfold do_POST.
  repeat first
    [ apply keeps_send_json_response
    | apply keeps_lift_result
    | apply keeps_ret
    | apply keeps_transcribe_audio
    | apply keeps_NamedTemporaryFile
    | apply keeps_file_write
    | apply keeps_os_unlink
    | apply keeps_try_finally
    | apply keeps_try_except
    | apply keeps_bind
    | intros ?
    | case_match ].
Qed.

Lemma keeps_handle_one_request self : keeps f (handle_one_request self).
Proof.
  unfold handle_one_request.
  repeat case_match;
    auto using keeps_do_GET, keeps_do_POST, keeps_do_OPTIONS, keeps_send_error.
Qed.

End Frame.

(** ** The life of the two globals *)

Section Lifecycle.
Context `{PyLib}.

(** The loader: a successful load sets both globals and returns [True];
    a failed one changes neither and returns [False]. *)
Lemma load_parakeet_model_success m w :
  load_parakeet_model (inr m) w
  = (Return true,
     emit [EvPrint "Loading Parakeet model...";
           EvPrint "Parakeet model loaded successfully!"]
       (set_model_loaded true (set_model (Some m) w))).
Proof.
  unfold load_parakeet_model, bind, try_except, print, modify, lift_result, ret.
  simpl. destruct w; unfold emit, set_model_loaded, set_model; simpl.
  by rewrite <- app_assoc.
Qed.

Lemma load_parakeet_model_failure e w :
  load_parakeet_model (inl e) w
  = (Return false,
     emit [EvPrint "Loading Parakeet model...";
           EvPrint ("Error loading model: " +:+ exc_str e)] w).
Proof.
  unfold load_parakeet_model, bind, try_except, print, modify, lift_result, raise, ret.
  simpl. by rewrite emit_emit.
Qed.

Lemma model_loaded_emit evs w : model_loaded (emit evs w) = model_loaded w.
Proof. done. Qed.

(** Every operation but a successful load leaves the flag alone. *)
Lemma run_op_model_loaded op w :
  model_loaded (run_op op w) = model_loaded w ∨
  (successful_load op ∧ model_loaded (run_op op w) = true).
Proof.
  destruct op as [[e|m]|a|req|req|req|req]; cbn [run_op].
  - left. by rewrite load_parakeet_model_failure.
  - right. split; [by exists m|]. by rewrite load_parakeet_model_success.
  - left. by apply keeps_transcribe_audio.
  - left. by apply keeps_do_GET.
  - left. by apply keeps_do_POST.
  - left. by apply keeps_do_OPTIONS.
  - left. by apply keeps_handle_one_request.
Qed.

Lemma run_ops_cons op ops w : run_ops (op :: ops) w = run_ops ops (run_op op w).
Proof. done. Qed.

Lemma run_ops_stays_loaded ops w :
  model_loaded w = true → model_loaded (run_ops ops w) = true.
Proof.
  revert w. induction ops as [|op ops IH]; intros w Hw; [done|].
  rewrite run_ops_cons. apply IH.
  destruct (run_op_model_loaded op w) as [->|[_ ->]]; done.
Qed.

Lemma run_ops_loaded_by_load ops w :
  model_loaded w = false → model_loaded (run_ops ops w) = true →
  Exists successful_load ops.
Proof.
  revert w. induction ops as [|op ops IH]; intros w Hw Hend.
  - simpl in Hend. congruence.
  - rewrite run_ops_cons in Hend.
    destruct (run_op_model_loaded op w) as [Heq|[Hload _]].
    + apply Exists_cons_tl. apply (IH (run_op op w)); congruence.
    + by apply Exists_cons_hd.
Qed.

(** The flag agrees with the global in every state the process reaches:
    the test of line 39 and the flag the status routes report speak of the
    same thing. *)
Lemma flag_agrees_run_op op w : flag_agrees w → flag_agrees (run_op op w).
Proof.
  unfold flag_agrees. intros Hw.
  destruct op as [[e|m]|a|req|req|req|req]; cbn [run_op].
  - by rewrite load_parakeet_model_failure.
  - rewrite load_parakeet_model_success. simpl. split; [by eexists|done].
  - by rewrite (keeps_transcribe_audio model_loaded), (keeps_transcribe_audio model).
  - by rewrite (keeps_do_GET model_loaded), (keeps_do_GET model).
  - by rewrite (keeps_do_POST model_loaded), (keeps_do_POST model).
  - by rewrite (keeps_do_OPTIONS model_loaded), (keeps_do_OPTIONS model).
  - by rewrite (keeps_handle_one_request model_loaded),
         (keeps_handle_one_request model).
Qed.

Lemma model_loaded_iff_model ops fs denied :
  flag_agrees (run_ops ops (initial_world fs denied)).
Proof.
  assert (Hinit : flag_agrees (initial_world fs denied)).
  { split; [done|]. by intros [? ?]. }
  revert Hinit. generalize (initial_world fs denied).
  induction ops as [|op ops IH]; intros w Hw; [done|].
  rewrite run_ops_cons. by apply IH, flag_agrees_run_op.
Qed.

(** C5.  The readiness flag [model_loaded]: it is false when the module
    is first loaded; from false it can only have become true through a
    successful run of the loader; and once true, no operation of the
    program (loader, [transcribe_audio], any handler) makes it false
    again. *)
Theorem model_loaded_never_reset :
  (∀ fs denied, model_loaded (initial_world fs denied) = false)
  ∧ (∀ ops w,
       model_loaded w = false → model_loaded (run_ops ops w) = true →
       Exists successful_load ops)
  ∧ (∀ ops w,
       model_loaded w = true → model_loaded (run_ops ops w) = true).
Proof.
  split_and!; [done|apply run_ops_loaded_by_load|apply run_ops_stays_loaded].
Qed.

End Lifecycle.

(** ** The handlers *)

Section Handlers.
Context `{PyLib}.

Lemma transcribe_audio_spec a w :
  model_lock w = false →
  transcribe_audio a w = (Return (transcript a w), emit (transcribe_events a w) w).
Proof.
  intros Hl. unfold transcript, transcribe_events, inference.
  destruct (model w) as [m|] eqn:Hm; simpl.
  - by apply transcribe_audio_loaded.
  - rewrite emit_nil. by apply transcribe_audio_unloaded.
Qed.

Lemma bind_lift_inr {A C} (a : A) (k : A → M C) w :
  bind (lift_result (inr a)) k w = k a w.
Proof. done. Qed.

Lemma bind_lift_inl {A C} e (k : A → M C) w :
  bind (lift_result (inl e)) k w = (Raise e, w).
Proof. done. Qed.

Lemma rfile_read_inr stream n data :
  rfile_read stream n = inr data ↔ readable_length n ∧ data = read_result stream n.
Proof.
  unfold rfile_read, readable_length, read_result.
  destruct (Z.ltb_spec n (-1)); [split; [done|lia]|].
  destruct (Z.eqb_spec n (-1)) as [->|Hne].
  { split; [intros [= <-]; split; [by left|done]|by intros [_ ->]]. }
  destruct (Z.leb_spec ssize_max n); [split; [done|lia]|].
  destruct (Z.ltb_spec read_max n); [split; [done|lia]|].
  split; [intros [= <-]; split; [right; lia|done]|by intros [_ ->]].
Qed.

Lemma post_data_of_inr self data :
  post_data_of self = inr data
  ↔ ∃ s n, content_length self = Some s ∧ py_int s = Some n ∧
           readable_length n ∧ data = read_result (rfile self) n.
Proof.
  unfold post_data_of, int_of_header.
  destruct (content_length self) as [s|].
  2:{ split; [done|]. by intros (? & ? & ? & _). }
  destruct (py_int s) as [n|] eqn:Hs.
  2:{ split; [done|]. intros (? & ? & [= <-] & Hs' & _). by rewrite Hs in Hs'. }
  rewrite rfile_read_inr. split.
  - intros [Hn ->]. by exists s, n.
  - intros (? & ? & [= <-] & Hs' & Hn & ->). rewrite Hs in Hs'.
    by injection Hs' as <-.
Qed.

(** Lines 87-88 (and 106-107) in terms of [post_data_of]. *)
Lemma read_body {C} self (k : bytes → M C) w :
  (content_length <- lift_result (int_of_header (content_length self)) ;;
   post_data <- lift_result (rfile_read (rfile self) content_length) ;;
   k post_data) w
  = match post_data_of self with
    | inl e => (Raise e, w)
    | inr post_data => k post_data w
    end.
Proof.
  unfold post_data_of.
  destruct (int_of_header (content_length self)) as [e|n]; [done|].
  rewrite bind_lift_inr. by destruct (rfile_read (rfile self) n).
Qed.

(** The loop of [_mkstemp_inner] settles on a name no file has. *)
Lemma mkstemp_inner_spec attempts n fs suffix name next :
  mkstemp_inner attempts n fs suffix = inr (name, next) →
  fs !! name = None ∧ ∃ k, name = temp_name k suffix ∧ next = S k.
Proof.
  revert n. induction attempts as [|attempts IH]; intros n; simpl; [done|].
  destruct (fs !! temp_name n suffix) eqn:Hn.
  - apply IH.
  - destruct (create_error (temp_name n suffix)); [done|].
    intros [= <- <-]. split; [done|]. by exists n.
Qed.

Lemma mkstemp_fresh w name next :
  mkstemp w = inr (name, next) →
  files w !! name = None ∧ ∃ k, name = temp_stem k +:+ ".wav".
Proof.
  intros Hn. apply mkstemp_inner_spec in Hn as (Hfree & k & -> & _).
  split; [done|]. by exists k.
Qed.

(** Lines 91-93. *)
Lemma write_temp_file data w :
  (f <- NamedTemporaryFile ".wav" ;; file_write f data ;; ret f) w
  = match mkstemp w with
    | inl e => (Raise e, w)
    | inr (name, next) =>
        match write_error name data with
        | Some e => (Raise e, temp_created name next w)
        | None => (Return name, temp_written name next data w)
        end
    end.
Proof.
  unfold bind, NamedTemporaryFile, file_write, mkstemp.
  destruct (mkstemp_inner _ _ _ _) as [e|[name next]]; [done|].
  destruct (write_error name data) as [e|]; [done|].
  unfold ret, temp_written. f_equal.
  destruct w; unfold emit, set_files, set_tmp_counter; simpl.
  by rewrite lookup_total_insert_eq, insert_insert_eq, <- app_assoc.
Qed.

Lemma unlink_temp_file name w data :
  files w !! name = Some data →
  try_except (os_unlink name) (λ _, ret tt) w = (Return tt, after_unlink name w).
Proof.
  intros Hf. unfold try_except, os_unlink, after_unlink, ret. rewrite Hf.
  simpl. by case_decide.
Qed.

(** A target [urlparse] rejects: line 67 (line 84) raises, nothing has
    happened yet. *)
Lemma do_GET_unparsed self w e :
  urlparse_path (path self) = inl e → do_GET self w = (Raise e, w).
Proof. intros Hpath. unfold do_GET. by rewrite Hpath. Qed.

Lemma do_POST_unparsed self w e :
  urlparse_path (path self) = inl e → do_POST self w = (Raise e, w).
Proof. intros Hpath. unfold do_POST. by rewrite Hpath. Qed.

(** The route [/transcribe] when the body has been read and the temporary
    file written. *)
Lemma do_POST_transcribe self w post_data name next :
  urlparse_path (path self) = inr "/transcribe" →
  post_data_of self = inr post_data →
  mkstemp w = inr (name, next) →
  write_error name post_data = None →
  model_lock w = false →
  let w1 := temp_written name next post_data w in
  do_POST self w
  = (Return tt,
     after_unlink name
       (emit (transcribe_events (PStr name) w1 ++
              [EvResponse (json_response (transcript (PStr name) w1) 200)]) w1)).
Proof.
  intros Hpath Hbody Hname Hwrite Hl w1. unfold do_POST.
  rewrite Hpath, bind_lift_inr. simpl.
  rewrite read_body, Hbody.
  unfold bind at 1. rewrite write_temp_file, Hname, Hwrite. fold w1.
  unfold try_finally, bind. rewrite (transcribe_audio_spec _ w1) by done.
  unfold send_json_response, modify. rewrite emit_emit.
  rewrite (unlink_temp_file name _ post_data); [done|].
  simpl. apply lookup_insert_eq.
Qed.

Lemma do_POST_transcribe_unread self w e :
  urlparse_path (path self) = inr "/transcribe" →
  post_data_of self = inl e →
  do_POST self w = (Raise e, w).
Proof.
  intros Hpath Hbody. unfold do_POST. rewrite Hpath, bind_lift_inr. simpl.
  by rewrite read_body, Hbody.
Qed.

(** Line 91 fails: the handler raises, nothing has happened. *)
Lemma do_POST_transcribe_uncreated self w post_data e :
  urlparse_path (path self) = inr "/transcribe" →
  post_data_of self = inr post_data →
  mkstemp w = inl e →
  do_POST self w = (Raise e, w).
Proof.
  intros Hpath Hbody Hname. unfold do_POST. rewrite Hpath, bind_lift_inr. simpl.
  rewrite read_body, Hbody.
  unfold bind at 1. by rewrite write_temp_file, Hname.
Qed.

(** Line 92 fails: the handler raises from inside the [with] block, which
    stands before the [try] of line 95, so the [finally] clause that
    deletes the file is never entered. *)
Lemma do_POST_transcribe_unwritten self w post_data name next e :
  urlparse_path (path self) = inr "/transcribe" →
  post_data_of self = inr post_data →
  mkstemp w = inr (name, next) →
  write_error name post_data = Some e →
  do_POST self w = (Raise e, temp_created name next w).
Proof.
  intros Hpath Hbody Hname Hwrite. unfold do_POST.
  rewrite Hpath, bind_lift_inr. simpl.
  rewrite read_body, Hbody.
  unfold bind at 1. by rewrite write_temp_file, Hname, Hwrite.
Qed.

(** The route [/transcribe-file] up to the decoding of the body. *)
Lemma do_POST_transcribe_file self w :
  urlparse_path (path self) = inr "/transcribe-file" →
  do_POST self w
  = match json_body self with
    | inl e => (Raise e, w)
    | inr data =>
        (has_path <- lift_result (py_contains "path" data) ;;
         if negb has_path then send_json_response no_path 400
         else
           audio_path <- lift_result (py_getitem data "path") ;;
           result <- transcribe_audio audio_path ;;
           send_json_response result 200) w
    end.
Proof.
  intros Hpath. unfold do_POST, json_body. rewrite Hpath, bind_lift_inr. simpl.
  rewrite read_body.
  destruct (post_data_of self) as [e|post_data]; [done|].
  by destruct (json_loads post_data).
Qed.

Lemma do_GET_other self w route :
  urlparse_path (path self) = inr route →
  route ≠ "/health" → route ≠ "/status" →
  do_GET self w = (Return tt, emit [EvResponse (json_response not_found 404)] w).
Proof.
  intros Hpath H1 H2. unfold do_GET. rewrite Hpath, bind_lift_inr.
  apply String.eqb_neq in H1, H2. by rewrite H1, H2.
Qed.

Lemma do_POST_other self w route :
  urlparse_path (path self) = inr route →
  route ≠ "/transcribe" → route ≠ "/transcribe-file" →
  do_POST self w = (Return tt, emit [EvResponse (json_response not_found 404)] w).
Proof.
  intros Hpath H1 H2. unfold do_POST. rewrite Hpath, bind_lift_inr.
  apply String.eqb_neq in H1, H2. by rewrite H1, H2.
Qed.

Lemma transcribe_and_send a w :
  model_lock w = false →
  (result <- transcribe_audio a ;; send_json_response result 200) w
  = (Return tt,
     emit (transcribe_events a w ++ [EvResponse (json_response (transcript a w) 200)]) w).
Proof.
  intros Hl. unfold bind. rewrite transcribe_audio_spec by done.
  unfold send_json_response, modify. by rewrite emit_emit.
Qed.

Lemma dict_has_get key d :
  dict_has key d = true ↔ is_Some (dict_get key d).
Proof.
  unfold dict_has, dict_get. induction d as [|[k v] d IH]; simpl.
  - split; [done|]. by intros [? ?].
  - destruct (String.eqb k key); simpl; [|done]. split; [by eexists|done].
Qed.

End Handlers.

(** ** What a handler run puts in the log *)

Section HandlerLog.
Context `{PyLib}.

Lemma trace_after_unlink name w :
  trace (after_unlink name w) = trace w ++ [EvUnlink name].
Proof. unfold after_unlink. by case_decide. Qed.

Lemma trace_temp_written name next data w :
  trace (temp_written name next data w)
  = trace w ++ [EvTempfile name; EvWrite name data].
Proof. done. Qed.

Lemma trace_temp_created name next w :
  trace (temp_created name next w) = trace w ++ [EvTempfile name].
Proof. done. Qed.

Lemma responses_transcribe_events a w : responses (transcribe_events a w) = [].
Proof. unfold transcribe_events. by destruct (inference a w). Qed.

Lemma generate_in_transcribe_events a r a' w :
  EvGenerate a r ∈ transcribe_events a' w → a = a' ∧ inference a' w = Some r.
Proof.
  unfold transcribe_events. destruct (inference a' w) as [r'|].
  - rewrite !elem_of_cons, elem_of_nil.
    intros [?|[[= -> ->]|[?|[]]]]; done.
  - by rewrite elem_of_nil.
Qed.

Lemma transcript_of_inference a w r : inference a w = Some r → transcript a w = result_of r.
Proof. unfold transcript. by intros ->. Qed.

Lemma reports_failure_no_call o evs :
  (∀ a r, EvGenerate a r ∉ evs) → reports_failure o evs.
Proof. intros Hno a e Hin. by apply Hno in Hin. Qed.

Lemma reports_failure_call pre a w post :
  (∀ a r, EvGenerate a r ∉ pre) → (∀ a r, EvGenerate a r ∉ post) →
  responses pre = [] → responses post = [] →
  reports_failure (Return tt)
    (pre ++ transcribe_events a w ++
     [EvResponse (json_response (transcript a w) 200)] ++ post).
Proof.
  intros Hpre Hpost Hrpre Hrpost a' e.
  rewrite !elem_of_app, list_elem_of_singleton.
  intros [Hin|[Hin|[Hin|Hin]]]; [by apply Hpre in Hin| |done|by apply Hpost in Hin].
  apply generate_in_transcribe_events in Hin as [-> Hr].
  split; [done|]. unfold responses.
  rewrite !omap_app. fold (responses pre) (responses post)
    (responses (transcribe_events a w)).
  rewrite Hrpre, Hrpost, responses_transcribe_events. simpl.
  by rewrite (transcript_of_inference _ _ _ Hr).
Qed.

Lemma do_GET_log self w :
  (∃ e, urlparse_path (path self) = inl e ∧ do_GET self w = (Raise e, w))
  ∨ ∃ r, do_GET self w = (Return tt, emit [EvResponse r] w).
Proof.
  unfold do_GET. destruct (urlparse_path (path self)) as [e|route].
  - left. by exists e.
  - right. rewrite bind_lift_inr. repeat case_match; by eexists.
Qed.

Lemma do_POST_log self w :
  model_lock w = false →
  ∃ o w' evs,
    do_POST self w = (o, w') ∧ trace w' = trace w ++ evs ∧ reports_failure o evs.
Proof.
  intros Hl.
  assert (Hnone : ∀ e, ∃ o w' evs,
            (Raise e, w) = (o, w') ∧ trace w' = trace w ++ evs ∧
            reports_failure o evs).
  { intros e. exists (Raise e), w, []. split_and!; [done|by rewrite app_nil_r|].
    apply reports_failure_no_call. intros ??. apply not_elem_of_nil. }
  destruct (urlparse_path (path self)) as [e|route] eqn:Hroute.
  { rewrite (do_POST_unparsed _ _ _ Hroute). apply Hnone. }
  destruct (decide (route = "/transcribe")) as [->|Hp];
    [|destruct (decide (route = "/transcribe-file")) as [->|Hp']].
  - destruct (post_data_of self) as [e|post_data] eqn:Hbody.
    { rewrite (do_POST_transcribe_unread _ _ _ Hroute Hbody). apply Hnone. }
    destruct (mkstemp w) as [e|[name next]] eqn:Hname.
    { rewrite (do_POST_transcribe_uncreated _ _ _ _ Hroute Hbody Hname). apply Hnone. }
    destruct (write_error name post_data) as [e|] eqn:Hwrite.
    + rewrite (do_POST_transcribe_unwritten _ _ _ _ _ _ Hroute Hbody Hname Hwrite).
      eexists _, _, _. split_and!; [done|apply trace_temp_created|].
      apply reports_failure_no_call. by intros ?? ?%list_elem_of_singleton.
    + eexists _, _, _. split; [by apply do_POST_transcribe|].
      rewrite trace_after_unlink, trace_emit, trace_temp_written, <- !app_assoc.
      split; [done|].
      apply reports_failure_call; [|by intros ?? ?%list_elem_of_singleton|done..].
      intros ??. rewrite !elem_of_cons, elem_of_nil. by intros [?|[?|[]]].
  - rewrite (do_POST_transcribe_file _ _ Hroute).
    destruct (json_body self) as [e|data]; [apply Hnone|].
    destruct (py_contains "path" data) as [e|has_path]; [apply Hnone|].
    rewrite bind_lift_inr. destruct has_path; cbn [negb].
    + destruct (py_getitem data "path") as [e|audio_path]; [apply Hnone|].
      rewrite bind_lift_inr, transcribe_and_send by done.
      eexists _, _, _. split_and!; [done|apply trace_emit|].
      pose proof (reports_failure_call [] audio_path w []) as Hr.
      simpl in Hr.
      apply Hr; [| |done..]; intros ??; apply not_elem_of_nil.
    + eexists _, _, _. split_and!; [done|apply trace_emit|].
      apply reports_failure_no_call. by intros ?? ?%list_elem_of_singleton.
  - rewrite (do_POST_other _ _ _ Hroute Hp Hp').
    eexists _, _, _. split_and!; [done|apply trace_emit|].
    apply reports_failure_no_call. by intros ?? ?%list_elem_of_singleton.
Qed.

Lemma handle_one_request_log self w :
  model_lock w = false →
  ∃ o w' evs,
    handle_one_request self w = (o, w') ∧ trace w' = trace w ++ evs ∧
    reports_failure o evs.
Proof.
  intros Hl. unfold handle_one_request. repeat case_match.
  - destruct (do_GET_log self w) as [(e & _ & ->)|[r ->]].
    + exists (Raise e), w, []. split_and!; [done|by rewrite app_nil_r|].
      apply reports_failure_no_call. intros ??. apply not_elem_of_nil.
    + eexists _, _, _. split_and!; [done|apply trace_emit|].
      apply reports_failure_no_call. by intros ?? ?%list_elem_of_singleton.
  - by apply do_POST_log.
  - eexists _, _, _. split_and!; [done|apply trace_emit|].
    apply reports_failure_no_call. by intros ?? ?%list_elem_of_singleton.
  - eexists _, _, _. split_and!; [done|apply trace_emit|].
    apply reports_failure_no_call. by intros ?? ?%list_elem_of_singleton.
Qed.

End HandlerLog.

(** ** The claims about requests *)

Section Claims.
Context `{PyLib}.

(** C2.  A failure of the model call never leaves [transcribe_audio].
    Whatever the argument, when [model.generate] raises [e] the function
    returns the dict with [error] set to [str(e)] and an empty [text],
    the lock having been released; and a handler run in which the model
    call raised returns normally after sending exactly one response, with
    status 200 and that dict as body. *)
Theorem inference_failure_is_reported :
  (∀ a w m e,
     model w = Some m → model_lock w = false →
     generate m (files w) a = GenRaise e →
     transcribe_audio a w
     = (Return (PDict [("error", PStr (exc_str e)); ("text", PStr "")]),
        emit [EvAcquire; EvGenerate a (GenRaise e); EvRelease] w))
  ∧
  (∀ self w o w' evs a e,
     model_lock w = false →
     handle_one_request self w = (o, w') →
     trace w' = trace w ++ evs →
     EvGenerate a (GenRaise e) ∈ evs →
     o = Return tt ∧
     responses evs
     = [mkResponse 200 json_headers
          (JsonBody (PDict [("error", PStr (exc_str e)); ("text", PStr "")]))]).
Proof.
  split.
  - intros a w m e Hm Hl He.
    rewrite (transcribe_audio_loaded a w m Hm Hl). simpl. by rewrite He.
  - intros self w o w' evs a e Hl Hrun Htrace Hin.
    destruct (handle_one_request_log self w Hl) as (o0 & w0 & evs0 & Hrun0 & Htr0 & Hrep).
    rewrite Hrun in Hrun0. injection Hrun0 as <- <-.
    rewrite Htrace in Htr0. apply app_inv_head in Htr0 as <-.
    by apply (Hrep a e).
Qed.

(** C4.  With no model loaded, [transcribe_audio] returns the dict with
    [error] "Model not loaded" and an empty [text], and the state is left
    exactly as it was: no event is logged, so the lock is not acquired and
    the model is not called.  The thread that runs the call goes from the
    entry to the end in one step, never waiting for the lock. *)
Theorem transcribe_audio_model_not_loaded a w :
  model w = None →
  transcribe_audio a w
  = (Return (PDict [("error", PStr "Model not loaded"); ("text", PStr "")]), w)
  ∧ Threads.thread_step (Threads.AtEntry a) w
    = Some (Threads.Finished
              (PDict [("error", PStr "Model not loaded"); ("text", PStr "")]), w).
Proof.
  intros Hm. split; [by apply transcribe_audio_unloaded|].
  simpl. by rewrite Hm.
Qed.

(** C6 (as amended).  For every POST to [/transcribe] on which lines
    87-93 go through -- the [Content-Length] header is present and is an
    integer literal [n] that is [-1] or lies between [0] and what
    [rfile.read] can allocate (below [2^63 - 1] and not above [read_max]),
    line 91 creates the temporary file, and the write succeeds -- and with
    the lock free: the body read is written to a new temporary file, under
    a name no file had and which ends in [.wav]; [transcribe_audio] is
    called with that name while the file holds the body; its result is sent
    with status 200; [os.unlink] is then called on the file, whatever the
    transcription did; the handler returns normally whether or not the
    deletion succeeds, and the file is gone, the files being as before the
    request, exactly when it does. *)
Theorem transcribe_route_temp_file self w s n name next :
  urlparse_path (path self) = inr "/transcribe" →
  content_length self = Some s →
  py_int s = Some n →
  n = (-1)%Z ∨ (0 ≤ n)%Z ∧ (n < 2 ^ 63 - 1)%Z ∧ (n ≤ read_max)%Z →
  let post_data := read_result (rfile self) n in
  mkstemp w = inr (name, next) →
  write_error name post_data = None →
  model_lock w = false →
  let w1 := temp_written name next post_data w in
  post_data_of self = inr post_data ∧
  files w !! name = None ∧
  (∃ k, name = temp_stem k +:+ ".wav") ∧
  files w1 = <[name := post_data]> (files w) ∧
  ∃ result evs w',
    transcribe_audio (PStr name) w1 = (Return result, emit evs w1) ∧
    do_POST self w = (Return tt, w') ∧
    trace w' = trace w ++ [EvTempfile name; EvWrite name post_data] ++ evs ++
               [EvResponse (json_response result 200); EvUnlink name] ∧
    (name ∉ unlink_denied w →
       files w' = delete name (files w1) ∧ files w' = files w) ∧
    (name ∈ unlink_denied w → files w' = files w1).
Proof.
  intros Hpath Hs Hn Hlen post_data Hname Hwrite Hl w1.
  assert (Hbody : post_data_of self = inr post_data).
  { apply post_data_of_inr. by exists s, n. }
  destruct (mkstemp_fresh _ _ _ Hname) as [Hfree Hwav].
  split_and!; [done..|].
  exists (transcript (PStr name) w1), (transcribe_events (PStr name) w1).
  eexists. split_and!.
  - by apply transcribe_audio_spec.
  - by apply do_POST_transcribe.
  - rewrite trace_after_unlink, trace_emit, trace_temp_written.
    by rewrite <- !app_assoc.
  - intros Hok. unfold after_unlink. case_decide; [done|]. split; [done|].
    simpl. by apply delete_insert_id.
  - intros Hdenied. unfold after_unlink. by case_decide.
Qed.

(** C7 (as amended).  For every POST to [/transcribe-file] whose body, as
    lines 106-108 read and decode it, is a JSON object, with the lock free: if the object has no key [path] the handler sends
    status 400 with [{"error": "No path provided"}] and does nothing else;
    if it has one, [transcribe_audio] is called on the value of [path]
    itself and its result is sent with status 200.  In both cases no
    temporary file is created and the files are left as they were. *)
Theorem transcribe_file_route self w d :
  urlparse_path (path self) = inr "/transcribe-file" →
  json_body self = inr (PDict d) →
  model_lock w = false →
  (dict_get "path" d = None →
     do_POST self w
     = (Return tt,
        emit [EvResponse
                (mkResponse 400 json_headers
                   (JsonBody (PDict [("error", PStr "No path provided")])))] w))
  ∧
  (∀ audio_path,
     dict_get "path" d = Some audio_path →
     ∃ result evs,
       transcribe_audio audio_path w = (Return result, emit evs w) ∧
       do_POST self w
       = (Return tt, emit (evs ++ [EvResponse (json_response result 200)]) w) ∧
       (∀ name, EvTempfile name ∉ evs)).
Proof.
  intros Hpath Hbody Hl.
  rewrite (do_POST_transcribe_file _ _ Hpath), Hbody.
  cbn [py_contains]. rewrite bind_lift_inr.
  pose proof (dict_has_get "path" d) as Hhas.
  split.
  - intros Hnone. rewrite Hnone in Hhas.
    destruct (dict_has "path" d); [|done].
    destruct Hhas as [[? ?] _]; done.
  - intros audio_path Hsome. rewrite Hsome in Hhas.
    destruct (dict_has "path" d); [|destruct Hhas as [_ Hhas]; by specialize (Hhas (mk_is_Some _ _ eq_refl))].
    cbn [negb py_getitem]. rewrite Hsome, bind_lift_inr.
    exists (transcript audio_path w), (transcribe_events audio_path w).
    split_and!; [by apply transcribe_audio_spec|by apply transcribe_and_send|].
    intros name. unfold transcribe_events.
    destruct (inference audio_path w); [|apply not_elem_of_nil].
    rewrite !elem_of_cons, elem_of_nil. by intros [?|[?|[?|[]]]].
Qed.

(** C8.  For every GET whose path is [/health] the handler sends status
    200 with [{"status": "ok", "model_loaded": <flag>}], and for every GET
    whose path is [/status] status 200 with [{"model_loaded": <flag>,
    "model_name": "parakeet-tdt-0.6b-v2"}], where [<flag>] is the value
    of the global [model_loaded] at that moment; nothing else happens. *)
Theorem health_and_status self w :
  command self = "GET" →
  (urlparse_path (path self) = inr "/health" →
     handle_one_request self w
     = (Return tt,
        emit [EvResponse
                (mkResponse 200 json_headers
                   (JsonBody (PDict [("status", PStr "ok");
                                     ("model_loaded", PBool (model_loaded w))])))] w))
  ∧
  (urlparse_path (path self) = inr "/status" →
     handle_one_request self w
     = (Return tt,
        emit [EvResponse
                (mkResponse 200 json_headers
                   (JsonBody (PDict [("model_loaded", PBool (model_loaded w));
                                     ("model_name", PStr "parakeet-tdt-0.6b-v2")])))] w)).
Proof.
  intros Hcmd. unfold handle_one_request, do_GET. rewrite Hcmd.
  split; intros ->; done.
Qed.

(** C9 (as amended).  A GET whose target [urlparse] parses to a path
    that is neither [/health] nor [/status], and a POST whose target it
    parses to a path that is neither [/transcribe] nor [/transcribe-file],
    are answered with status 404 and [{"error": "Not found"}].  A request
    whose method is not GET, POST or OPTIONS is not: the class has no method
    for it and the inherited dispatcher answers 501 with an error page.  A
    GET or POST whose target [urlparse] rejects is not answered at all: the
    exception of line 67 (line 84) leaves the handler before anything is
    sent. *)
Theorem unknown_route self w :
  (∀ route,
     command self = "GET" →
     urlparse_path (path self) = inr route →
     route ≠ "/health" → route ≠ "/status" →
     handle_one_request self w
     = (Return tt,
        emit [EvResponse
                (mkResponse 404 json_headers
                   (JsonBody (PDict [("error", PStr "Not found")])))] w))
  ∧
  (∀ route,
     command self = "POST" →
     urlparse_path (path self) = inr route →
     route ≠ "/transcribe" → route ≠ "/transcribe-file" →
     handle_one_request self w
     = (Return tt,
        emit [EvResponse
                (mkResponse 404 json_headers
                   (JsonBody (PDict [("error", PStr "Not found")])))] w))
  ∧
  (command self ≠ "GET" → command self ≠ "POST" → command self ≠ "OPTIONS" →
   ∃ hdrs message,
     handle_one_request self w
     = (Return tt, emit [EvResponse (mkResponse 501 hdrs (ErrorPage 501 message))] w))
  ∧
  (∀ e,
     command self = "GET" ∨ command self = "POST" →
     urlparse_path (path self) = inl e →
     handle_one_request self w = (Raise e, w)).
Proof.
  unfold handle_one_request. split_and!.
  - intros route -> Hroute H1 H2. simpl. by apply (do_GET_other _ _ route).
  - intros route -> Hroute H1 H2. simpl. by apply (do_POST_other _ _ route).
  - intros H1 H2 H3. apply String.eqb_neq in H1, H2, H3.
    rewrite H1, H2, H3. by eexists _, _.
  - intros e [->| ->] Hroute; simpl.
    + by apply do_GET_unparsed.
    + by apply do_POST_unparsed.
Qed.

(** C10.  For every POST to [/transcribe-file] whose body does not decode
    as JSON, the handler raises the exception of lines 106-108, the one of
    [json.loads] when the body was read; it is not caught, the test for
    [path] is not reached, and nothing is sent: the state, and with it the
    log of responses, is as before. *)
Theorem transcribe_file_invalid_json self w e :
  command self = "POST" →
  urlparse_path (path self) = inr "/transcribe-file" →
  json_body self = inl e →
  handle_one_request self w = (Raise e, w)
  ∧ do_POST self w = (Raise e, w)
  ∧ (∀ post_data, post_data_of self = inr post_data → json_loads post_data = inl e).
Proof.
  intros Hcmd Hpath Hbody. unfold handle_one_request. rewrite Hcmd. simpl.
  rewrite (do_POST_transcribe_file _ _ Hpath), Hbody. split_and!; [done..|].
  intros post_data Hread. unfold json_body in Hbody. by rewrite Hread in Hbody.
Qed.

End Claims.

(** ** Handlers and the lock *)

Section LockSafety.

Lemma lock_safe_ret {A} (a : A) : lock_safe (ret a).
Proof. by intros w Hl. Qed.

Lemma lock_safe_lift_result {A} (r : PyExc + A) : lock_safe (lift_result r).
Proof. intros w Hl. by destruct r. Qed.

Lemma lock_safe_get {A} (g : World → A) : lock_safe (get g).
Proof. by intros w Hl. Qed.

Lemma lock_safe_emit evs : lock_safe (modify (emit evs)).
Proof. by intros w Hl. Qed.

Lemma lock_safe_bind {A C} (c : M A) (k : A → M C) :
  lock_safe c → (∀ a, lock_safe (k a)) → lock_safe (bind c k).
Proof.
  intros Hc Hk w Hl. unfold bind. destruct (Hc w Hl) as [Hnb Hl'].
  destruct (c w) as [[a|e|] w']; simpl in *; [by apply Hk|done|done].
Qed.

Lemma lock_safe_try_except {A} (c : M A) (h : PyExc → M A) :
  lock_safe c → (∀ e, lock_safe (h e)) → lock_safe (try_except c h).
Proof.
  intros Hc Hh w Hl. unfold try_except. destruct (Hc w Hl) as [Hnb Hl'].
  destruct (c w) as [[a|e|] w']; simpl in *; [done|by apply Hh|done].
Qed.

Lemma lock_safe_try_finally {A} (c : M A) (fin : M unit) :
  lock_safe c → lock_safe fin → lock_safe (try_finally c fin).
Proof.
  intros Hc Hfin w Hl. unfold try_finally. destruct (Hc w Hl) as [Hnb Hl'].
  destruct (c w) as [[a|e|] w']; simpl in *; [| |done];
    destruct (Hfin w' Hl') as [Hnb' Hl''];
    destruct (fin w') as [[[]|e'|] w'']; simpl in *; done.
Qed.

Lemma lock_safe_os_unlink name : lock_safe (os_unlink name).
Proof.
  intros w Hl. unfold os_unlink. destruct (files w !! name); [|done].
  by case_decide.
Qed.

Context `{PyLib}.

Lemma lock_safe_transcribe_audio a : lock_safe (transcribe_audio a).
Proof. intros w Hl. by rewrite transcribe_audio_spec. Qed.

Lemma lock_safe_file_write name data : lock_safe (file_write name data).
Proof. intros w Hl. unfold file_write. by destruct (write_error name data). Qed.

Lemma lock_safe_NamedTemporaryFile suffix : lock_safe (NamedTemporaryFile suffix).
Proof.
  intros w Hl. unfold NamedTemporaryFile.
  by destruct (mkstemp_inner _ _ _ _) as [e|[name next]].
Qed.

Lemma lock_safe_do_GET self : lock_safe (do_GET self).
Proof.
  intros w Hl. by destruct (do_GET_log self w) as [(e & _ & ->)|[r ->]].
Qed.

Lemma lock_safe_do_POST self : lock_safe (do_POST self).
Proof.
  unfold do_POST, send_json_response.
  repeat first
    [ assumption
    | apply lock_safe_emit
    | apply lock_safe_lift_result
    | apply lock_safe_ret
    | apply lock_safe_transcribe_audio
    | apply lock_safe_NamedTemporaryFile
    | apply lock_safe_file_write
    | apply lock_safe_os_unlink
    | apply lock_safe_try_finally
    | apply lock_safe_try_except
    | apply lock_safe_bind
    | intros ?
    | case_match ].
Qed.

(** A handler started with the lock free never waits for it and leaves
    it free: between two requests the lock is free. *)
Lemma lock_safe_handle_one_request self : lock_safe (handle_one_request self).
Proof.
  unfold handle_one_request, do_OPTIONS, send_error.
  repeat case_match;
    auto using lock_safe_do_GET, lock_safe_do_POST, lock_safe_emit.
Qed.

End LockSafety.

(** ** The accept loop *)

Section ServerProperties.
Context `{PyLib}.
Import Server.

Lemma lock_free_step cls S S' :
  model_lock (world S) = false → step cls S S' → model_lock (world S') = false.
Proof.
  intros Hl [Hs|Hc].
  - destruct Hs as [S c bl Hb Hcls | S i c o w' Hi Hr Hrun Hnb]; [done|].
    simpl. destruct (lock_safe_handle_one_request (request c) (world S) Hl) as [_ Hl'].
    by rewrite Hrun in Hl'.
  - by destruct Hc.
Qed.

Lemma lock_free_reachable cls S0 S :
  initial S0 → rtc (step cls) S0 S → model_lock (world S) = false.
Proof.
  intros (_ & _ & Hl) Hsteps. induction Hsteps; eauto using lock_free_step.
Qed.

(** With [HTTPServer] at most one handler runs. *)
Lemma sequential_step S S' :
  (length (active S) ≤ 1)%nat → step HTTPServer S S' → (length (active S') ≤ 1)%nat.
Proof.
  intros Hlen [Hs|Hc].
  - destruct Hs as [S c bl Hb [Hcls|Hidle] | S i c o w' Hi Hr Hrun Hnb]; simpl.
    + done.
    + by rewrite Hidle.
    + rewrite length_delete by done. lia.
  - destruct Hc; simpl; [done|]. by rewrite length_fmap.
Qed.

Lemma sequential_reachable S0 S :
  initial S0 → rtc (step HTTPServer) S0 S → (length (active S) ≤ 1)%nat.
Proof.
  intros (Hidle & _) Hsteps.
  assert (Hlen : (length (active S0) ≤ 1)%nat) by (rewrite Hidle; simpl; lia).
  clear Hidle. induction Hsteps; eauto using sequential_step.
Qed.

(** While its only handler waits for the request to arrive, an
    [HTTPServer] can do nothing. *)
Lemma sequential_stuck S c S' :
  active S = [c] → received c = false → ¬ server_step HTTPServer S S'.
Proof.
  intros Hact Hrecv Hs.
  destruct Hs as [S c' bl Hb [Hcls|Hidle] | S i c' o w' Hi Hr Hrun Hnb].
  - done.
  - by rewrite Hact in Hidle.
  - rewrite Hact in Hi. destruct i as [|i]; simpl in Hi; [|done].
    injection Hi as <-. congruence.
Qed.

(** C3 (as amended).  The server that [run_server] starts handles
    connections one at a time: in every state it reaches at most one handler is
    running, and while that handler waits for its request to arrive the
    server takes no step at all, so no other connection is accepted or
    answered until it returns. *)
Theorem connections_handled_one_at_a_time S0 S :
  initial S0 → rtc run_server S0 S →
  (length (active S) ≤ 1)%nat ∧
  (∀ c S', active S = [c] → received c = false → ¬ server_step server_class S S').
Proof.
  intros Hinit Hsteps. split.
  - by apply (sequential_reachable S0 S).
  - intros c S'. apply sequential_stuck.
Qed.

(** For comparison: a [ThreadingHTTPServer] accepts a waiting connection
    whatever its handlers are doing, and answers it. *)
Lemma threading_accepts l1 S rest :
  backlog S = l1 ++ rest →
  rtc (server_step ThreadingHTTPServer) S
    (mkState rest (active S ++ l1) (closed S) (world S)).
Proof.
  revert S. induction l1 as [|c l1 IH]; intros S Hb.
  - simpl in Hb. rewrite app_nil_r. destruct S; simpl in *. by subst.
  - eapply rtc_l; [apply (step_accept _ S c (l1 ++ rest)); [done|by left]|].
    specialize (IH (mkState (l1 ++ rest) (active S ++ [c]) (closed S) (world S)) eq_refl).
    simpl in IH. by rewrite <- app_assoc in IH.
Qed.

Lemma threading_handles_in_parallel : handles_in_parallel ThreadingHTTPServer.
Proof.
  intros S0 S c Hinit Hsteps Hin Hrecv.
  pose proof (lock_free_reachable _ _ _ Hinit Hsteps) as Hl.
  apply list_elem_of_split in Hin as (l1 & l2 & Hb).
  pose proof (threading_accepts (l1 ++ [c]) S l2) as Hacc.
  rewrite <- app_assoc in Hacc. specialize (Hacc Hb).
  destruct (handle_one_request (request c) (world S)) as [o w'] eqn:Hrun.
  destruct (lock_safe_handle_one_request (request c) (world S) Hl) as [Hnb _].
  rewrite Hrun in Hnb. simpl in Hnb.
  eexists. split.
  - eapply rtc_r; [exact Hacc|].
    apply (step_handle _ _ (length (active S ++ l1)) c o w'); simpl; [|done..].
    rewrite app_assoc. by apply list_lookup_middle.
  - simpl. apply elem_of_app. right. by apply list_elem_of_singleton.
Qed.

End ServerProperties.

(** * Closed instances *)

(** ** Instances of the theorems *)

Lemma pool_running_reachable : rtc Threads.pool_step pool_start pool_running.
Proof.
  eapply rtc_l.
  { eapply (Threads.step_thread pool_start 0 _ (Threads.AtAcquire (PStr "a.wav"))
             ready_world); reflexivity. }
  eapply rtc_l.
  { eapply (Threads.step_thread _ 0 _ (Threads.AtGenerate (PStr "a.wav"))
              (emit [EvAcquire] (set_model_lock true ready_world))); reflexivity. }
  eapply rtc_l.
  { eapply (Threads.step_thread _ 1 _ (Threads.AtAcquire (PStr "b.wav"))
              (emit [EvAcquire] (set_model_lock true ready_world))); reflexivity. }
  apply rtc_refl.
Defined.

Lemma pool_start_initial : Threads.initial pool_start.
Proof.
  split; [|reflexivity].
  repeat constructor; eexists; reflexivity.
Defined.

Lemma transcribe_audio_lock_discipline_witness :
  (model ready_world = Some sample_model ∧ model_lock ready_world = false ∧
   model_lock (snd (transcribe_audio (PStr sample_path) ready_world)) = false)
  ∧
  (Threads.initial pool_start ∧ rtc Threads.pool_step pool_start pool_running ∧
   model_lock (Threads.shared pool_running) = true ∧
   ∀ i p, Threads.threads pool_running !! i = Some p →
          Threads.in_inference p = true → i = 0%nat).
Proof.
  destruct transcribe_audio_lock_discipline as [Hseq Hpool]. split.
  - split_and!; [reflexivity..|].
    apply (Hseq (PStr sample_path) ready_world sample_model); reflexivity.
  - destruct (Hpool pool_start pool_running pool_start_initial pool_running_reachable)
      as (Hexcl & Hheld & _).
    split_and!; [exact pool_start_initial|exact pool_running_reachable| |].
    + apply (Hheld 0%nat (Threads.AtGenerate (PStr "a.wav"))); reflexivity.
    + intros i p Hi Hp.
      apply (Hexcl i 0%nat p (Threads.AtGenerate (PStr "a.wav")) Hi); [|exact Hp|];
        reflexivity.
Defined.

Lemma inference_failure_is_reported_witness :
  (model ready_world = Some sample_model ∧ model_lock ready_world = false ∧
   generate sample_model (files ready_world) (PStr sample_path)
   = GenRaise (FileNotFoundError sample_path) ∧
   fst (transcribe_audio (PStr sample_path) ready_world)
   = Return (PDict [("error", PStr sample_path); ("text", PStr "")]))
  ∧
  (∃ w',
     @handle_one_request sample_lib post_path ready_world = (Return tt, w') ∧
     responses (trace w')
     = [mkResponse 200 json_headers
          (JsonBody (PDict [("error", PStr sample_path); ("text", PStr "")]))]).
Proof.
  destruct (@inference_failure_is_reported sample_lib) as [Hcall Hhandler]. split.
  - split_and!; [reflexivity..|].
    rewrite (Hcall (PStr sample_path) ready_world sample_model
               (FileNotFoundError sample_path)); reflexivity.
  - destruct (@handle_one_request sample_lib post_path ready_world) as [o w'] eqn:Hrun.
    assert (Htrace : trace w' = trace ready_world ++ trace w').
    { reflexivity. }
    assert (Hin : EvGenerate (PStr sample_path) (GenRaise (FileNotFoundError sample_path))
                  ∈ trace w').
    { vm_compute in Hrun. injection Hrun as _ <-. simpl. repeat constructor. }
    destruct (Hhandler post_path ready_world o w' (trace w') (PStr sample_path)
                (FileNotFoundError sample_path) eq_refl Hrun Htrace Hin) as [-> Hresp].
    exists w'. split; [reflexivity|exact Hresp].
Defined.

Lemma transcribe_audio_model_not_loaded_witness :
  model (initial_world ∅ ∅) = None ∧
  transcribe_audio (PStr sample_path) (initial_world ∅ ∅)
  = (Return (PDict [("error", PStr "Model not loaded"); ("text", PStr "")]),
     initial_world ∅ ∅).
Proof.
  split; [reflexivity|].
  apply (transcribe_audio_model_not_loaded (PStr sample_path) (initial_world ∅ ∅)).
  reflexivity.
Defined.

Lemma model_loaded_never_reset_witness :
  (model_loaded (initial_world ∅ ∅) = false ∧
   Exists successful_load [OpRequest get_health; OpLoad (inr sample_model)])
  ∧
  (model_loaded ready_world = true ∧
   model_loaded
     (@run_ops sample_lib
        [OpRequest post_audio; OpLoad (inl (mkExc "ImportError" "no module"));
         OpTranscribe PNone; OpRequest put_health] ready_world) = true).
Proof.
  destruct (@model_loaded_never_reset sample_lib) as (Hinit & Hload & Hstay). split.
  - split; [apply (Hinit ∅ ∅)|].
    apply (Hload [OpRequest get_health; OpLoad (inr sample_model)] (initial_world ∅ ∅));
      reflexivity.
  - split; [reflexivity|]. apply Hstay. reflexivity.
Defined.

Lemma transcribe_route_temp_file_witness :
  @urlparse_path sample_lib (path post_audio) = inr "/transcribe" ∧
  content_length post_audio = Some "4" ∧
  @py_int sample_lib "4" = Some 4%Z ∧
  ((0 ≤ 4)%Z ∧ (4 < 2 ^ 63 - 1)%Z ∧ (4 ≤ @read_max sample_lib)%Z) ∧
  read_result (rfile post_audio) 4 = riff ∧
  @mkstemp sample_lib ready_world = inr ("/tmp/tmpvs0.wav", 1%nat) ∧
  @write_error sample_lib "/tmp/tmpvs0.wav" riff = None ∧
  model_lock ready_world = false ∧
  ∃ w',
    @do_POST sample_lib post_audio ready_world = (Return tt, w') ∧
    files w' !! "/tmp/tmpvs0.wav" = None ∧
    EvUnlink "/tmp/tmpvs0.wav" ∈ trace w'.
Proof.
  assert (Hlen : (0 ≤ 4)%Z ∧ (4 < 2 ^ 63 - 1)%Z ∧ (4 ≤ @read_max sample_lib)%Z).
  { cbn. lia. }
  assert (Hname : @mkstemp sample_lib ready_world = inr ("/tmp/tmpvs0.wav", 1%nat)).
  { vm_compute. reflexivity. }
  do 3 (split; [reflexivity|]). split; [exact Hlen|]. split; [reflexivity|].
  split; [exact Hname|]. do 2 (split; [reflexivity|]).
  destruct (@transcribe_route_temp_file sample_lib post_audio ready_world
              "4" 4%Z "/tmp/tmpvs0.wav" 1%nat
              eq_refl eq_refl eq_refl (or_intror Hlen) Hname eq_refl eq_refl)
    as (Hbody & Hfree & Hwav & Hfile & result & evs & w' & Hcall & Hrun & Htrace
        & Hgone & _).
  exists w'. split_and!; [exact Hrun| |].
  - destruct Hgone as [Hgone _]; [apply not_elem_of_empty|].
    rewrite Hgone. apply lookup_delete_eq.
  - rewrite Htrace. rewrite !elem_of_app. right. right. right.
    apply elem_of_cons. right. apply list_elem_of_singleton. reflexivity.
Defined.

Lemma transcribe_file_route_witness :
  (@json_body sample_lib post_empty_object = inr (PDict []) ∧
   @do_POST sample_lib post_empty_object ready_world
   = (Return tt,
      emit [EvResponse
              (mkResponse 400 json_headers
                 (JsonBody (PDict [("error", PStr "No path provided")])))]
        ready_world))
  ∧
  (@json_body sample_lib post_path = inr (PDict [("path", PStr sample_path)]) ∧
   ∃ result evs,
     transcribe_audio (PStr sample_path) ready_world = (Return result, emit evs ready_world) ∧
     @do_POST sample_lib post_path ready_world
     = (Return tt, emit (evs ++ [EvResponse (json_response result 200)]) ready_world)).
Proof.
  split.
  - split_and!; [reflexivity..|].
    apply (@transcribe_file_route sample_lib post_empty_object ready_world []);
      reflexivity.
  - split_and!; [reflexivity..|].
    destruct (@transcribe_file_route sample_lib post_path ready_world
                [("path", PStr sample_path)] eq_refl eq_refl eq_refl) as [_ Hpath].
    destruct (Hpath (PStr sample_path) eq_refl) as (result & evs & Hcall & Hrun & _).
    exists result, evs. split; assumption.
Defined.

Lemma health_and_status_witness :
  (command get_health = "GET" ∧
   @urlparse_path sample_lib (path get_health) = inr "/health" ∧
   @handle_one_request sample_lib get_health (initial_world ∅ ∅)
   = (Return tt,
      emit [EvResponse
              (mkResponse 200 json_headers
                 (JsonBody (PDict [("status", PStr "ok"); ("model_loaded", PBool false)])))]
        (initial_world ∅ ∅)))
  ∧
  (command get_status = "GET" ∧
   @urlparse_path sample_lib (path get_status) = inr "/status" ∧
   @handle_one_request sample_lib get_status ready_world
   = (Return tt,
      emit [EvResponse
              (mkResponse 200 json_headers
                 (JsonBody (PDict [("model_loaded", PBool true);
                                   ("model_name", PStr "parakeet-tdt-0.6b-v2")])))]
        ready_world)).
Proof.
  split.
  - split_and!; [reflexivity..|].
    apply (@health_and_status sample_lib get_health (initial_world ∅ ∅)); reflexivity.
  - split_and!; [reflexivity..|].
    apply (@health_and_status sample_lib get_status ready_world); reflexivity.
Defined.

Lemma unknown_route_witness :
  (command get_unknown = "GET" ∧
   @urlparse_path sample_lib (path get_unknown) = inr "/metrics" ∧
   responses (trace (snd (@handle_one_request sample_lib get_unknown ready_world)))
   = [json_response not_found 404])
  ∧
  (command post_unknown = "POST" ∧
   @urlparse_path sample_lib (path post_unknown) = inr "/upload" ∧
   responses (trace (snd (@handle_one_request sample_lib post_unknown ready_world)))
   = [json_response not_found 404])
  ∧
  (command put_health ≠ "GET" ∧ command put_health ≠ "POST" ∧
   command put_health ≠ "OPTIONS" ∧
   ∃ hdrs message,
     @handle_one_request sample_lib put_health ready_world
     = (Return tt,
        emit [EvResponse (mkResponse 501 hdrs (ErrorPage 501 message))] ready_world))
  ∧
  (command get_bad_target = "GET" ∧
   @urlparse_path sample_lib (path get_bad_target) = inl (ValueError "Invalid IPv6 URL") ∧
   @handle_one_request sample_lib get_bad_target ready_world
   = (Raise (ValueError "Invalid IPv6 URL"), ready_world)).
Proof.
  destruct (@unknown_route sample_lib get_unknown ready_world) as (Hget & _ & _ & _).
  destruct (@unknown_route sample_lib post_unknown ready_world) as (_ & Hpost & _ & _).
  destruct (@unknown_route sample_lib put_health ready_world) as (_ & _ & Hput & _).
  destruct (@unknown_route sample_lib get_bad_target ready_world) as (_ & _ & _ & Hbad).
  split_and!; [reflexivity|reflexivity| |reflexivity|reflexivity| |discriminate..|
               |reflexivity|reflexivity|].
  - rewrite (Hget "/metrics"); [reflexivity..|discriminate|discriminate].
  - rewrite (Hpost "/upload"); [reflexivity..|discriminate|discriminate].
  - apply Hput; discriminate.
  - apply Hbad; [left|]; reflexivity.
Defined.

Lemma transcribe_file_invalid_json_witness :
  command post_garbage = "POST" ∧
  @urlparse_path sample_lib (path post_garbage) = inr "/transcribe-file" ∧
  @post_data_of sample_lib post_garbage = inr riff ∧
  @json_loads sample_lib riff
  = inl (mkExc "JSONDecodeError" "Expecting value: line 1 column 1 (char 0)") ∧
  @handle_one_request sample_lib post_garbage ready_world
  = (Raise (mkExc "JSONDecodeError" "Expecting value: line 1 column 1 (char 0)"),
     ready_world).
Proof.
  split_and!; [reflexivity..|].
  apply (@transcribe_file_invalid_json sample_lib post_garbage ready_world);
    reflexivity.
Defined.

Lemma server_waiting_reachable :
  rtc (@Server.run_server sample_lib) server_start server_waiting.
Proof.
  apply rtc_once. left.
  apply (Server.step_accept _ server_start slow_conn [ready_conn]);
    [reflexivity|right; reflexivity].
Defined.

Lemma server_start_initial : @Server.initial server_start.
Proof. split_and!; reflexivity. Defined.

Lemma connections_handled_one_at_a_time_witness :
  Server.initial server_start ∧
  rtc (@Server.run_server sample_lib) server_start server_waiting ∧
  (length (Server.active server_waiting) ≤ 1)%nat ∧
  ∀ S', ¬ @Server.server_step sample_lib Server.server_class server_waiting S'.
Proof.
  destruct (@connections_handled_one_at_a_time sample_lib server_start server_waiting
              server_start_initial server_waiting_reachable) as [Hone Hstuck].
  split_and!; [exact server_start_initial|exact server_waiting_reachable|exact Hone|].
  intros S'. apply (Hstuck slow_conn S'); reflexivity.
Defined.

(** ** Counterexamples *)

(** C3 as stated fails.  The second client has sent a complete request and
    waits in the backlog; the server has accepted the first connection, whose
    client sends nothing; the server never answers the second. *)
Lemma connections_not_handled_in_parallel :
  ¬ @Server.handles_in_parallel sample_lib Server.server_class.
Proof.
  intros Hpar.
  destruct (Hpar server_start server_waiting ready_conn server_start_initial
              server_waiting_reachable) as (S' & Hsteps & Hclosed).
  - apply list_elem_of_singleton. reflexivity.
  - reflexivity.
  - apply rtc_inv in Hsteps as [<-|(S1 & Hstep & _)].
    + simpl in Hclosed. by apply elem_of_nil in Hclosed.
    + by apply (@sequential_stuck sample_lib server_waiting slow_conn S1).
Qed.

(** C6 as stated fails.  A POST to [/transcribe] without a [Content-Length]
    header: line 87 raises [TypeError] before any file is created; the model
    is not called and nothing is sent. *)
Lemma transcribe_without_content_length :
  command post_audio_no_length = "POST" ∧
  @urlparse_path sample_lib (path post_audio_no_length) = inr "/transcribe" ∧
  (∃ e, @handle_one_request sample_lib post_audio_no_length ready_world
        = (Raise e, ready_world) ∧ exc_type e = "TypeError") ∧
  trace (snd (@handle_one_request sample_lib post_audio_no_length ready_world)) = [] ∧
  files (snd (@handle_one_request sample_lib post_audio_no_length ready_world)) = ∅.
Proof.
  split_and!; [reflexivity..| |reflexivity|reflexivity].
  eexists. split; reflexivity.
Qed.

(** C7 as stated fails.  Three POSTs to [/transcribe-file] whose bodies
    are valid JSON.  The body [null] lacks a key [path], and so does the
    body [{}] of a request without [Content-Length]: neither is answered
    400, the handler raises [TypeError] (line 110, line 106) and sends
    nothing.  The body [["path"]] contains [path]: the model is not called,
    line 114 raises [TypeError] and nothing is sent. *)
Lemma non_object_body_is_not_answered :
  (@urlparse_path null_lib (path post_null) = inr "/transcribe-file" ∧
   @json_body null_lib post_null = inr PNone ∧
   @handle_one_request null_lib post_null ready_world
   = (Raise (TypeError "argument of type 'NoneType' is not iterable"), ready_world))
  ∧
  (@urlparse_path sample_lib (path post_empty_object_no_length)
   = inr "/transcribe-file" ∧
   @json_loads sample_lib (rfile post_empty_object_no_length) = inr (PDict []) ∧
   ∃ e, @handle_one_request sample_lib post_empty_object_no_length ready_world
        = (Raise e, ready_world) ∧ exc_type e = "TypeError")
  ∧
  (@urlparse_path array_lib (path post_array) = inr "/transcribe-file" ∧
   @json_body array_lib post_array = inr (PList [PStr "path"]) ∧
   py_contains "path" (PList [PStr "path"]) = inr true ∧
   @handle_one_request array_lib post_array ready_world
   = (Raise (TypeError "list indices must be integers or slices, not str"),
      ready_world)).
Proof.
  split_and!; [reflexivity..| |reflexivity|reflexivity|reflexivity|reflexivity].
  eexists. split; reflexivity.
Qed.

(** C9 as stated fails.  A PUT is none of the five routes, and the answer
    is 501 with an error page, not 404 with [{"error": "Not found"}]. *)
Lemma put_is_not_answered_404 :
  command put_health ≠ "GET" ∧ command put_health ≠ "POST" ∧
  command put_health ≠ "OPTIONS" ∧
  ∃ r, responses (trace (snd (@handle_one_request sample_lib put_health ready_world))) = [r]
       ∧ status r = 501 ∧ status r ≠ 404
       ∧ content r ≠ JsonBody (PDict [("error", PStr "Not found")]).
Proof.
  split_and!; [discriminate..|].
  eexists. split_and!; [reflexivity|reflexivity|discriminate|discriminate].
Qed.


(** * Further properties *)

(** ** Every way a handler run can end *)

Section HandlerCases.
Context `{PyLib}.

Lemma transcript_is_dict a w : ∃ d, transcript a w = PDict d.
Proof.
  unfold transcript. destruct (inference a w) as [[text|e]|]; by eexists.
Qed.

Lemma command_cases self :
  command self = "GET" ∨ command self = "POST" ∨ command self = "OPTIONS" ∨
  (command self ≠ "GET" ∧ command self ≠ "POST" ∧ command self ≠ "OPTIONS").
Proof.
  destruct (decide (command self = "GET")); [by left|].
  destruct (decide (command self = "POST")); [by right; left|].
  destruct (decide (command self = "OPTIONS")); [by right; right; left|].
  by right; right; right.
Qed.

(** With the lock free a handler run ends in one of four ways: it raises
    before anything was done; it sends one response, after a model call at
    most, and leaves the files alone; it is the upload route, which also
    creates and removes its temporary file; or it is the upload route and
    the write of the temporary file fails. *)
Lemma handle_one_request_cases self w :
  model_lock w = false →
  (∃ e, handle_one_request self w = (Raise e, w) ∧
        (command self = "GET" ∨ command self = "POST"))
  ∨ (∃ pre r,
       handle_one_request self w = (Return tt, emit (pre ++ [EvResponse r]) w) ∧
       responses pre = [] ∧ (pre = [] ∨ ∃ a, pre = transcribe_events a w) ∧
       answered self r)
  ∨ (∃ post_data name next,
       command self = "POST" ∧ urlparse_path (path self) = inr "/transcribe" ∧
       post_data_of self = inr post_data ∧
       mkstemp w = inr (name, next) ∧ write_error name post_data = None ∧
       let w1 := temp_written name next post_data w in
       handle_one_request self w
       = (Return tt,
          after_unlink name
            (emit (transcribe_events (PStr name) w1 ++
                   [EvResponse (json_response (transcript (PStr name) w1) 200)]) w1)))
  ∨ (∃ post_data name next e,
       command self = "POST" ∧ urlparse_path (path self) = inr "/transcribe" ∧
       post_data_of self = inr post_data ∧
       mkstemp w = inr (name, next) ∧ write_error name post_data = Some e ∧
       handle_one_request self w = (Raise e, temp_created name next w)).
Proof.
  intros Hl. unfold handle_one_request.
  destruct (command_cases self) as [Hc|[Hc|[Hc|(Hg & Hp & Ho)]]].
  - (* GET *)
    rewrite Hc. simpl.
    destruct (urlparse_path (path self)) as [e|route] eqn:Hroute.
    { left. exists e. split; [by apply do_GET_unparsed|by left]. }
    right. left. exists []. unfold do_GET, answered. rewrite Hroute, bind_lift_inr.
    destruct (decide (route = "/health")) as [->|Hh];
      [|destruct (decide (route = "/status")) as [->|Hs]].
    + simpl. eexists. split_and!; [done|done|by left|].
      left. exists "/health". split; [done|].
      left. split_and!; [done|by left|by eexists].
    + simpl. eexists. split_and!; [done|done|by left|].
      left. exists "/status". split; [done|].
      left. split_and!; [done|by right|by eexists].
    + pose proof Hh as Hh'. pose proof Hs as Hs'.
      apply String.eqb_neq in Hh', Hs'. rewrite Hh', Hs'. simpl.
      eexists. split_and!; [done|done|by left|].
      left. exists route. split; [done|]. right. left. done.
  - (* POST *)
    rewrite Hc. simpl.
    destruct (urlparse_path (path self)) as [e|route] eqn:Hroute.
    { left. exists e. split; [by apply do_POST_unparsed|by right]. }
    destruct (decide (route = "/transcribe")) as [->|Ht];
      [|destruct (decide (route = "/transcribe-file")) as [->|Hf]].
    + destruct (post_data_of self) as [e|post_data] eqn:Hbody.
      { left. exists e. rewrite (do_POST_transcribe_unread _ _ _ Hroute Hbody).
        split; [done|by right]. }
      destruct (mkstemp w) as [e|[name next]] eqn:Hname.
      { left. exists e.
        rewrite (do_POST_transcribe_uncreated _ _ _ _ Hroute Hbody Hname).
        split; [done|by right]. }
      destruct (write_error name post_data) as [e|] eqn:Hwrite.
      * do 3 right. exists post_data, name, next, e. split_and!; [done..|].
        by apply (do_POST_transcribe_unwritten _ _ post_data).
      * right. right. left. exists post_data, name, next. split_and!; [done..|].
        by apply do_POST_transcribe.
    + rewrite (do_POST_transcribe_file _ _ Hroute).
      destruct (json_body self) as [e|data].
      { left. exists e. split; [done|by right]. }
      destruct (py_contains "path" data) as [e|has_path].
      { left. exists e. split; [done|by right]. }
      rewrite bind_lift_inr. destruct has_path; cbn [negb].
      * destruct (py_getitem data "path") as [e|audio_path].
        { left. exists e. split; [done|by right]. }
        rewrite bind_lift_inr, transcribe_and_send by done.
        right. left. eexists _, _. split_and!;
          [done|apply responses_transcribe_events|right; by eexists|].
        destruct (transcript_is_dict audio_path w) as [d ->].
        left. exists "/transcribe-file". split; [done|].
        right. right. left. split_and!; [done|by right|by eexists].
      * right. left. exists []. eexists. split_and!; [done|done|by left|].
        left. exists "/transcribe-file". split; [done|].
        do 3 right. left. done.
    + rewrite (do_POST_other _ _ _ Hroute Ht Hf).
      right. left. exists []. eexists. split_and!; [done|done|by left|].
      left. exists route. split; [done|]. do 4 right. done.
  - (* OPTIONS *)
    rewrite Hc. simpl. right. left. exists []. eexists. split_and!; [done|done|by left|].
    right. left. done.
  - (* any other method *)
    pose proof Hg as Hg'. pose proof Hp as Hp'. pose proof Ho as Ho'.
    apply String.eqb_neq in Hg', Hp', Ho'. rewrite Hg', Hp', Ho'.
    right. left. exists []. eexists. split_and!; [done|done|by left|].
    right. right. split_and!; [done..|]. by eexists _, _.
Qed.

(** The same, read off the log. *)
Lemma handle_one_request_answer self w o w' evs :
  model_lock w = false →
  handle_one_request self w = (o, w') →
  trace w' = trace w ++ evs →
  (∃ e, o = Raise e ∧ w' = w ∧ evs = [])
  ∨ (∃ r, o = Return tt ∧ responses evs = [r] ∧ answered self r)
  ∨ (∃ e name next data,
       o = Raise e ∧ command self = "POST" ∧
       urlparse_path (path self) = inr "/transcribe" ∧
       post_data_of self = inr data ∧ mkstemp w = inr (name, next) ∧
       write_error name data = Some e ∧
       w' = temp_created name next w ∧ evs = [EvTempfile name]).
Proof.
  intros Hl Hrun Htrace.
  destruct (handle_one_request_cases self w Hl)
    as [(e & Hrun' & _)|[(pre & r & Hrun' & Hpre & _ & Hans)|
        [(data & name & next & Hc & Hroute & Hbody & Hname & Hwrite & Hrun')|
         (data & name & next & e & Hc & Hroute & Hbody & Hname & Hwrite & Hrun')]]];
    rewrite Hrun in Hrun'.
  - injection Hrun' as -> ->. left. exists e. split_and!; [done..|].
    rewrite <- (app_nil_r (trace w)) in Htrace at 1. by apply app_inv_head in Htrace.
  - injection Hrun' as -> ->. right. left. exists r.
    rewrite trace_emit in Htrace. apply app_inv_head in Htrace as <-.
    split_and!; [done| |done].
    unfold responses in *. rewrite omap_app, Hpre. done.
  - simpl in Hrun'. injection Hrun' as -> ->. right. left. eexists.
    rewrite trace_after_unlink, trace_emit, trace_temp_written, <- !app_assoc in Htrace.
    apply app_inv_head in Htrace as <-.
    split_and!; [done| |].
    + unfold responses. rewrite !omap_app. simpl.
      fold (responses (transcribe_events (PStr name) (temp_written name next data w))).
      by rewrite responses_transcribe_events.
    + destruct (transcript_is_dict (PStr name) (temp_written name next data w))
        as [d ->].
      unfold answered. left. exists "/transcribe". split; [done|].
      right. right. left. split_and!; [done|by left|by eexists].
  - injection Hrun' as -> ->. right. right. exists e, name, next, data.
    rewrite trace_temp_created in Htrace. apply app_inv_head in Htrace as <-.
    done.
Qed.

(** The files after a handler run: those before it, and at most one more,
    under a name that was free. *)
Lemma handle_one_request_files self w o w' :
  model_lock w = false →
  handle_one_request self w = (o, w') →
  files w' = files w
  ∨ (command self = "POST" ∧ urlparse_path (path self) = inr "/transcribe" ∧
     ∃ name data k,
       name = temp_stem k +:+ ".wav" ∧ files w !! name = None ∧
       files w' = <[name := data]> (files w)).
Proof.
  intros Hl Hrun.
  destruct (handle_one_request_cases self w Hl)
    as [(e & Hrun' & _)|[(pre & r & Hrun' & _)|
        [(data & name & next & Hc & Hroute & Hbody & Hname & Hwrite & Hrun')|
         (data & name & next & e & Hc & Hroute & Hbody & Hname & Hwrite & Hrun')]]];
    rewrite Hrun in Hrun'.
  - injection Hrun' as -> ->. by left.
  - injection Hrun' as -> ->. by left.
  - simpl in Hrun'. injection Hrun' as -> ->.
    destruct (mkstemp_fresh _ _ _ Hname) as [Hfree [k Hk]].
    unfold after_unlink. case_decide; simpl.
    + right. split_and!; [done..|]. by exists name, data, k.
    + left. by apply delete_insert_id.
  - injection Hrun' as -> ->.
    destruct (mkstemp_fresh _ _ _ Hname) as [Hfree [k Hk]].
    right. split_and!; [done..|]. by exists name, [], k.
Qed.

End HandlerCases.

(** ** Responses *)

Section Responses.
Context `{PyLib}.


(** X2.  Every response to a GET, POST or OPTIONS request carries the
    header [Access-Control-Allow-Origin: *]; every response to a GET or a
    POST has content type [application/json] and a JSON object as body,
    error answers included. *)
Theorem responses_allow_any_origin self w o w' evs r :
  model_lock w = false →
  command self = "GET" ∨ command self = "POST" ∨ command self = "OPTIONS" →
  handle_one_request self w = (o, w') →
  trace w' = trace w ++ evs →
  r ∈ responses evs →
  ("Access-Control-Allow-Origin", "*") ∈ headers r ∧
  (command self ≠ "OPTIONS" →
   ("Content-Type", "application/json") ∈ headers r ∧
   ∃ d, content r = JsonBody (PDict d)).
Proof.
  intros Hl Hcmd Hrun Htrace Hin.
  destruct (handle_one_request_answer self w o w' evs Hl Hrun Htrace)
    as [(e & _ & _ & ->)|[(r' & _ & Hr & Hans)|
        (e & name & next & data & _ & _ & _ & _ & _ & _ & _ & ->)]].
  { by apply elem_of_nil in Hin. }
  2:{ by apply elem_of_nil in Hin. }
  rewrite Hr in Hin. apply list_elem_of_singleton in Hin as ->.
  unfold answered in Hans.
  destruct Hans as [(route & _ & [(_ & _ & d & ->)|[(_ & _ & _ & ->)|
    [(_ & _ & d & ->)|[(_ & _ & ->)|(_ & _ & _ & ->)]]]])|
    [(Ho & ->)|(Hg & Hp & Ho & _)]];
    simpl.
  - split; [repeat constructor|]. intros _. split; [repeat constructor|by eexists].
  - split; [repeat constructor|]. intros _. split; [repeat constructor|by eexists].
  - split; [repeat constructor|]. intros _. split; [repeat constructor|by eexists].
  - split; [repeat constructor|]. intros _. split; [repeat constructor|by eexists].
  - split; [repeat constructor|]. intros _. split; [repeat constructor|by eexists].
  - split; [repeat constructor|]. done.
  - destruct Hcmd as [?|[?|?]]; done.
Qed.

(** X3.  The responses that [do_GET], [do_POST] and [do_OPTIONS] send have
    status 200, 400 or 404, and each error status has one cause: 400 is
    sent only by POST [/transcribe-file], with the body
    [{"error": "No path provided"}]; 404 only to a GET or POST whose target
    parses to a path that is not a route of that method.  A model call that
    raised is answered with status 200: a failed transcription is never
    reported through the status.  (The answers of the inherited class --
    501 for another method, and the error pages it sends for a request it
    cannot parse -- are not responses of these three methods.) *)
Theorem error_statuses_have_one_cause self w o w' evs r :
  model_lock w = false →
  command self = "GET" ∨ command self = "POST" ∨ command self = "OPTIONS" →
  handle_one_request self w = (o, w') →
  trace w' = trace w ++ evs →
  r ∈ responses evs →
  (status r = 200 ∨ status r = 400 ∨ status r = 404) ∧
  (status r = 400 →
   command self = "POST" ∧ urlparse_path (path self) = inr "/transcribe-file" ∧
   content r = JsonBody (PDict [("error", PStr "No path provided")])) ∧
  (status r = 404 →
   (∃ route,
      urlparse_path (path self) = inr route ∧
      (command self = "GET" ∧ route ≠ "/health" ∧ route ≠ "/status" ∨
       command self = "POST" ∧ route ≠ "/transcribe" ∧ route ≠ "/transcribe-file")) ∧
   content r = JsonBody (PDict [("error", PStr "Not found")])) ∧
  (∀ a e, EvGenerate a (GenRaise e) ∈ evs → status r = 200).
Proof.
  intros Hl Hcmd Hrun Htrace Hin.
  assert (Hfail : ∀ a e, EvGenerate a (GenRaise e) ∈ evs → status r = 200).
  { intros a e Hgen.
    destruct (handle_one_request_log self w Hl) as (o0 & w0 & evs0 & Hrun0 & Htr0 & Hrep).
    rewrite Hrun in Hrun0. injection Hrun0 as <- <-.
    rewrite Htrace in Htr0. apply app_inv_head in Htr0 as <-.
    destruct (Hrep a e Hgen) as [_ Hresp]. rewrite Hresp in Hin.
    by apply list_elem_of_singleton in Hin as ->. }
  destruct (handle_one_request_answer self w o w' evs Hl Hrun Htrace)
    as [(e & _ & _ & ->)|[(r' & _ & Hr & Hans)|
        (e & name & next & data & _ & _ & _ & _ & _ & _ & _ & ->)]].
  { by apply elem_of_nil in Hin. }
  2:{ by apply elem_of_nil in Hin. }
  rewrite Hr in Hin. apply list_elem_of_singleton in Hin as ->.
  split_and!; [| | |done]; clear Hfail.
  all: unfold answered in Hans.
  all: destruct Hans as [(route & Hroute & [(Hc & Hr' & d & ->)|[(Hc & H1 & H2 & ->)|
    [(Hc & Hr' & d & ->)|[(Hc & Hr' & ->)|(Hc & H1 & H2 & ->)]]]])|
    [(Hc & ->)|(Hg & Hp & Ho & _)]];
    simpl; try done; try (destruct Hcmd as [?|[?|?]]; done).
  - by left.
  - by right; right.
  - by left.
  - by right; left.
  - by right; right.
  - by left.
  - intros _. by subst.
  - intros _. split; [|done]. exists route. split; [done|]. by left.
  - intros _. split; [|done]. exists route. split; [done|]. by right.
Qed.

(** X4.  A handler run changes no file other than its own temporary file,
    which is a new one: every path that held a file holds the same content
    after the run; a path whose content differs bears one of the names
    [tempfile] builds with the suffix [.wav], and it held no file; and a
    run that is not a POST to [/transcribe] leaves the whole file system as
    it was. *)
Theorem handler_touches_only_its_temp_file self w o w' :
  model_lock w = false →
  handle_one_request self w = (o, w') →
  (∀ p, is_Some (files w !! p) → files w' !! p = files w !! p) ∧
  (∀ p, files w' !! p ≠ files w !! p →
        files w !! p = None ∧ ∃ k, p = temp_stem k +:+ ".wav") ∧
  (command self ≠ "POST" ∨ urlparse_path (path self) ≠ inr "/transcribe" →
   files w' = files w).
Proof.
  intros Hl Hrun.
  destruct (handle_one_request_files self w o w' Hl Hrun)
    as [->|(Hc & Hroute & name & data & k & Hk & Hfree & ->)].
  { split_and!; done. }
  split_and!.
  - intros p [v Hp]. apply lookup_insert_ne. intros <-. congruence.
  - intros p Hne. destruct (decide (name = p)) as [<-|Hp].
    + split; [done|]. by exists k.
    + by rewrite lookup_insert_ne in Hne.
  - intros [?|?]; done.
Qed.

(** X5.  No temporary file is left behind when deletions are permitted and
    the writes of line 92 succeed: the file system after any sequence of
    requests is then the one before it, and the lock is free.  (The names
    need no assumption, [tempfile] takes one that is free; a creation that
    fails leaves no file; a write that fails does leave its file, X17.) *)
Theorem requests_leave_no_temp_files reqs w :
  model_lock w = false →
  unlink_denied w = ∅ →
  (∀ name data, write_error name data = None) →
  files (run_ops (requests reqs) w) = files w ∧
  model_lock (run_ops (requests reqs) w) = false.
Proof.
  intros Hl Hdenied Hwrites. revert w Hl Hdenied.
  induction reqs as [|self reqs IH]; intros w Hl Hdenied; [done|].
  unfold requests. rewrite fmap_cons, run_ops_cons. fold (requests reqs).
  cbn [run_op].
  destruct (handle_one_request self w) as [o w'] eqn:Hrun. cbn [snd].
  assert (Hl' : model_lock w' = false).
  { destruct (lock_safe_handle_one_request self w Hl) as [_ Hl'].
    by rewrite Hrun in Hl'. }
  assert (Hdenied' : unlink_denied w' = ∅).
  { pose proof (keeps_handle_one_request unlink_denied
                  (λ _ _, eq_refl) (λ _ _, eq_refl) (λ _ _, eq_refl) (λ _ _, eq_refl)
                  self w) as Hk.
    rewrite Hrun in Hk. simpl in Hk. by rewrite Hk. }
  assert (Hfiles : files w' = files w).
  { destruct (handle_one_request_cases self w Hl)
      as [(e & Hrun' & _)|[(pre & r & Hrun' & _)|
          [(data & name & next & Hc & Hroute & Hbody & Hname & Hwrite & Hrun')|
           (data & name & next & e & Hc & Hroute & Hbody & Hname & Hwrite & Hrun')]]];
      rewrite Hrun in Hrun'.
    - by injection Hrun' as -> ->.
    - by injection Hrun' as -> ->.
    - simpl in Hrun'. injection Hrun' as -> ->.
      destruct (mkstemp_fresh _ _ _ Hname) as [Hfree _].
      unfold after_unlink. simpl. rewrite Hdenied.
      case_decide as Hin; [by apply elem_of_empty in Hin|]. simpl.
      by apply delete_insert_id.
    - by rewrite Hwrites in Hwrite. }
  destruct (IH w' Hl' Hdenied') as [IHf IHl].
  split; [by rewrite IHf|done].
Qed.

End Responses.

(** ** Malformed requests *)

Section Malformed.
Context `{PyLib}.



(** X7.  A POST to [/transcribe-file] whose body is valid JSON but not an
    object never reaches the model and is never answered 200: a list
    without the string [path] and a string without the substring [path] get
    the 400 answer; a list with that element, a string with that substring,
    a number, a boolean and [null] make the handler raise [TypeError], and
    nothing is sent. *)
Theorem non_object_body_never_reaches_model self w data :
  command self = "POST" →
  urlparse_path (path self) = inr "/transcribe-file" →
  json_body self = inr data →
  (∀ d, data ≠ PDict d) →
  (py_contains "path" data = inr false →
   handle_one_request self w
   = (Return tt, emit [EvResponse (json_response no_path 400)] w))
  ∧ (py_contains "path" data ≠ inr false →
     ∃ e, handle_one_request self w = (Raise e, w) ∧ exc_type e = "TypeError")
  ∧ (py_contains "path" data = inr false ↔
     (∃ l, data = PList l ∧ ∀ v, v ∈ l → v ≠ PStr "path") ∨
     (∃ s, data = PStr s ∧ is_substring "path" s = false)).
Proof.
  intros Hc Hroute Hbody Hnot.
  unfold handle_one_request. rewrite Hc. simpl.
  rewrite (do_POST_transcribe_file _ _ Hroute), Hbody.
  split_and!.
  - intros ->. done.
  - intros Hne.
    destruct data as [|b|n|f|s|l|d]; simpl in *;
      try (eexists; split; [reflexivity|reflexivity]).
    + destruct (is_substring "path" s); [|done].
      eexists; split; reflexivity.
    + destruct (existsb (is_str "path") l); [|done].
      eexists; split; reflexivity.
    + by destruct (Hnot d).
  - destruct data as [|b|n|f|s|l|d]; simpl.
    + split; [done|]. by intros [(? & ? & _)|(? & ? & _)].
    + split; [done|]. by intros [(? & ? & _)|(? & ? & _)].
    + split; [done|]. by intros [(? & ? & _)|(? & ? & _)].
    + split; [done|]. by intros [(? & ? & _)|(? & ? & _)].
    + split.
      * intros [= Hs]. right. by exists s.
      * intros [(? & ? & _)|(s' & [= <-] & ->)]; done.
    + split.
      * intros [= Hl]. left. exists l. split; [done|]. intros v Hv ->.
        assert (existsb (is_str "path") l = true) as Ht; [|congruence].
        apply existsb_exists. exists (PStr "path").
        split; [by apply list_elem_of_In|]. done.
      * intros [(l' & [= <-] & Hall)|(? & ? & _)]; [|done]. f_equal.
        destruct (existsb (is_str "path") l) eqn:He; [|done].
        apply existsb_exists in He as (v & Hv & Hstr).
        apply list_elem_of_In in Hv. destruct v; try done.
        simpl in Hstr. apply String.eqb_eq in Hstr as ->.
        by destruct (Hall _ Hv).
    + by destruct (Hnot d).
Qed.

(** X8.  GET and OPTIONS requests are handled in any state, the lock held
    or not, without acquiring the lock, calling the model or touching a
    file.  OPTIONS is always answered, and the same for every path: status
    200, no body, and the three CORS headers.  A GET whose target
    [urlparse] parses is answered with one response, 200 or 404, and nothing
    else changes; a GET whose target it rejects is not answered: the
    handler raises and the state is as before. *)
Theorem get_and_options_ignore_lock self w :
  (command self = "OPTIONS" →
   handle_one_request self w
   = (Return tt,
      emit [EvResponse
              (mkResponse 200
                 [("Access-Control-Allow-Origin", "*");
                  ("Access-Control-Allow-Methods", "GET, POST, OPTIONS");
                  ("Access-Control-Allow-Headers", "Content-Type")] NoBody)] w))
  ∧ (∀ route,
       command self = "GET" → urlparse_path (path self) = inr route →
       ∃ r, handle_one_request self w = (Return tt, emit [EvResponse r] w) ∧
            (status r = 200 ∨ status r = 404))
  ∧ (∀ e,
       command self = "GET" → urlparse_path (path self) = inl e →
       handle_one_request self w = (Raise e, w)).
Proof.
  unfold handle_one_request. split_and!.
  - by intros ->.
  - intros route -> Hroute. simpl. unfold do_GET. rewrite Hroute, bind_lift_inr.
    repeat case_match; eexists; (split; [done|]); simpl; auto.
  - intros e -> Hroute. simpl. by apply do_GET_unparsed.
Qed.

End Malformed.

(** ** Loading and start-up *)

Section Startup.
Context `{PyLib}.

(** X9.  The loader never raises: it returns [True] exactly when the model
    was built, and then both globals are set; when the import or the
    construction fails it returns [False], prints the message of the
    exception, and leaves both globals as they were (a model loaded before
    stays in place).  The lock and the files are never touched. *)
Theorem loader_reports_failure_by_its_result load_model w :
  ∃ loaded w',
    load_parakeet_model load_model w = (Return loaded, w') ∧
    (loaded = true ↔ ∃ m, load_model = inr m) ∧
    (∀ m, load_model = inr m → model w' = Some m ∧ model_loaded w' = true) ∧
    (∀ e, load_model = inl e →
       model w' = model w ∧ model_loaded w' = model_loaded w ∧
       EvPrint ("Error loading model: " +:+ exc_str e) ∈ trace w') ∧
    model_lock w' = model_lock w ∧ files w' = files w.
Proof.
  destruct load_model as [e|m].
  - eexists _, _. split; [apply load_parakeet_model_failure|].
    split_and!; [|done| |done..].
    + split; [done|]. by intros [? ?].
    + intros e' [= <-]. split_and!; [done..|].
      rewrite trace_emit. apply elem_of_app. right. repeat constructor.
  - eexists _, _. split; [apply load_parakeet_model_success|].
    split_and!; [| |done..].
    + split; [by eexists|done].
    + by intros m' [= <-].
Qed.

Lemma main_load_failed e environ w :
  main (inl e) environ w
  = (Return (SysExit 1),
     emit [EvPrint "Loading Parakeet model...";
           EvPrint ("Error loading model: " +:+ exc_str e);
           EvPrint "Failed to load model. Exiting."] w).
Proof.
  unfold main, bind. rewrite load_parakeet_model_failure.
  unfold print, modify, ret. by rewrite emit_emit.
Qed.

Lemma main_load_succeeded m environ w :
  main (inr m) environ w
  = (match port_of_environ environ with
     | inr port => Return (RunServer port)
     | inl e => Raise e
     end,
     emit [EvPrint "Loading Parakeet model...";
           EvPrint "Parakeet model loaded successfully!"]
       (set_model_loaded true (set_model (Some m) w))).
Proof.
  unfold main, bind. rewrite load_parakeet_model_success.
  by destruct (port_of_environ environ).
Qed.

(** X10.  Start-up.  [run_server] is called only after a successful load,
    with the model in place and the flag set.  When the load fails the
    process prints "Failed to load model. Exiting." and exits with status
    1, the globals untouched.  The only way start-up raises is a value of
    [VOICESCRIBE_PORT] that [int] rejects, and that happens after the model
    was loaded. *)
Theorem main_serves_only_with_a_model load_model environ w :
  ∃ o w',
    main load_model environ w = (o, w') ∧
    (∀ port, o = Return (RunServer port) →
       (∃ m, load_model = inr m ∧ model w' = Some m) ∧ model_loaded w' = true) ∧
    (∀ status, o = Return (SysExit status) →
       status = 1%Z ∧ (∃ e, load_model = inl e) ∧
       model w' = model w ∧ model_loaded w' = model_loaded w ∧
       last (trace w') = Some (EvPrint "Failed to load model. Exiting.")) ∧
    (∀ e, o = Raise e →
       (∃ m, load_model = inr m) ∧ port_of_environ environ = inl e ∧
       exc_type e = "ValueError" ∧ model_loaded w' = true) ∧
    o ≠ Blocked ∧ model_lock w' = model_lock w ∧ files w' = files w.
Proof.
  destruct load_model as [e|m].
  - eexists _, _. split; [apply main_load_failed|].
    split_and!; [done| |done..].
    intros status [= <-]. split_and!; [done|by eexists|done..|].
    rewrite trace_emit.
    by rewrite last_app.
  - eexists _, _. split; [apply main_load_succeeded|].
    unfold port_of_environ.
    destruct (environ !! "VOICESCRIBE_PORT") as [s|]; [destruct (py_int s)|].
    + split_and!; [|done..]. intros port _. split; [by exists m|done].
    + split_and!; [done|done| |done..].
      intros e [= <-]. split_and!; [by eexists|done..].
    + split_and!; [|done..]. intros port _. split; [by exists m|done].
Qed.

(** X11.  The port.  After a successful load, [run_server] is called with
    8765 when [VOICESCRIBE_PORT] is not set and with the integer the
    variable spells when it is set; no other port is ever used. *)
Theorem main_port m environ w :
  (environ !! "VOICESCRIBE_PORT" = None →
   fst (main (inr m) environ w) = Return (RunServer 8765))
  ∧ (∀ s n, environ !! "VOICESCRIBE_PORT" = Some s → py_int s = Some n →
       fst (main (inr m) environ w) = Return (RunServer n))
  ∧ (∀ port, fst (main (inr m) environ w) = Return (RunServer port) →
       port = 8765%Z ∧ environ !! "VOICESCRIBE_PORT" = None ∨
       ∃ s, environ !! "VOICESCRIBE_PORT" = Some s ∧ py_int s = Some port).
Proof.
  rewrite main_load_succeeded. unfold port_of_environ. simpl. split_and!.
  - by intros ->.
  - by intros s n -> ->.
  - intros port. destruct (environ !! "VOICESCRIBE_PORT") as [s|].
    + destruct (py_int s) as [n|] eqn:Hn; [|done].
      intros [= <-]. right. by exists s.
    + intros [= <-]. by left.
Qed.

End Startup.

(** ** The result of a transcription *)

(** X12.  Whatever the argument and whatever the model does, a call of
    [transcribe_audio] with the lock free returns a dict with exactly the
    two keys [text] and [error], [text] a string; [error] is [None] exactly
    when the model returned a transcription, and otherwise it is a message
    and [text] is empty.  The call only adds to the log: model, flag, lock
    and files are as before, and no response is sent. *)
Theorem transcribe_audio_result_shape a w :
  model_lock w = false →
  ∃ d text evs,
    transcribe_audio a w = (Return (PDict d), emit evs w) ∧
    length d = 2%nat ∧
    dict_get "text" d = Some (PStr text) ∧
    (dict_get "error" d = Some PNone ∧ inference a w = Some (GenText text) ∨
     (∃ msg, dict_get "error" d = Some (PStr msg)) ∧ text = "" ∧
     ∀ t, inference a w ≠ Some (GenText t)) ∧
    responses evs = [].
Proof.
  intros Hl. rewrite (transcribe_audio_spec a w Hl).
  unfold transcript, transcribe_events.
  destruct (inference a w) as [[text|e]|]; simpl.
  - eexists _, text, _. split_and!; [done..| |done]. by left.
  - eexists _, "", _. split_and!; [done..| |done].
    right. split_and!; [by eexists|done..].
  - eexists _, "", _. split_and!; [done..| |done].
    right. split_and!; [by eexists|done..].
Qed.

(** ** Calls in flight: the log and progress *)

Section ThreadsFurther.
Import Threads.

Lemma lock_after_app held evs1 evs2 :
  lock_after held (evs1 ++ evs2) = lock_after held evs1 ≫= λ h, lock_after h evs2.
Proof.
  revert held. induction evs1 as [|ev evs1 IH]; intros held; [done|].
  destruct ev, held; simpl; try done; apply IH.
Qed.

(** A thread that holds the lock finds it held. *)
Lemma holder_sees_lock_held P i p :
  lock_inv P → threads P !! i = Some p → holds_lock p = true →
  model_lock (shared P) = true.
Proof.
  unfold lock_inv. intros Hinv Hi Hp.
  destruct (model_lock (shared P)); [done|].
  rewrite (Hinv i p Hi) in Hp. done.
Qed.

Lemma log_step P P' :
  lock_inv P →
  lock_after false (trace (shared P)) = Some (model_lock (shared P)) →
  pool_step P P' →
  lock_after false (trace (shared P')) = Some (model_lock (shared P')).
Proof.
  intros Hinv Hlog Hstep. destruct Hstep as [P i p p' w' Hi Hp | P a]; [|done].
  simpl. destruct p as [a|a|a|r|res]; simpl in Hp.
  - destruct (model (shared P)); by injection Hp as <- <-.
  - unfold acquire in Hp. destruct (model_lock (shared P)) eqn:Hl; [done|].
    injection Hp as <- <-. rewrite trace_emit, lock_after_app. simpl.
    by rewrite Hlog.
  - pose proof (holder_sees_lock_held P i _ Hinv Hi eq_refl) as Hl.
    unfold model_generate in Hp. destruct (model (shared P)) as [m|].
    + assert (w' = emit [EvGenerate a (generate m (files (shared P)) a)] (shared P))
        as -> by (destruct (generate m (files (shared P)) a); by injection Hp as <- <-).
      rewrite trace_emit, lock_after_app, Hlog, Hl. simpl. by rewrite Hl.
    + by injection Hp as <- <-.
  - pose proof (holder_sees_lock_held P i _ Hinv Hi eq_refl) as Hl.
    injection Hp as <- <-. unfold release, modify. simpl.
    rewrite lock_after_app, Hlog, Hl. done.
  - done.
Qed.

(** X13.  The log of any concurrent execution is one a single lock can
    produce: acquires and releases alternate, starting with an acquire,
    every model call lies between an acquire and the release that follows
    it, and the log ends with the lock in the state the program holds it
    in.  Calls to the model from different threads are therefore never
    interleaved with another thread's acquire or release. *)
Theorem concurrent_log_is_well_bracketed P0 P :
  initial P0 →
  lock_after false (trace (shared P0)) = Some false →
  rtc pool_step P0 P →
  lock_after false (trace (shared P)) = Some (model_lock (shared P)).
Proof.
  intros Hinit Hlog Hsteps.
  pose proof (initial_lock_inv P0 Hinit) as Hinv.
  destruct Hinit as [_ Hl].
  replace (Some false) with (Some (model_lock (shared P0))) in Hlog by (by rewrite Hl).
  clear Hl.
  induction Hsteps as [P|P P' P'' Hstep Hsteps IH]; [done|].
  apply IH; [by eapply log_step|by eapply lock_inv_step].
Qed.

Lemma unfinished_thread_steps_when_free p w :
  model_lock w = false → is_finished p = false →
  ∃ p' w', thread_step p w = Some (p', w').
Proof.
  intros Hl Hp. destruct p as [a|a|a|r|res]; simpl.
  - destruct (model w); by eexists _, _.
  - unfold acquire. rewrite Hl. by eexists _, _.
  - unfold model_generate. destruct (model w) as [m|]; [|by eexists _, _].
    destruct (generate m (files w) a); by eexists _, _.
  - by eexists _, _.
  - done.
Qed.

Lemma holder_steps p w :
  holds_lock p = true → ∃ p' w', thread_step p w = Some (p', w').
Proof.
  intros Hp. destruct p as [a|a|a|r|res]; try done; simpl.
  - unfold model_generate. destruct (model w) as [m|]; [|by eexists _, _].
    destruct (generate m (files w) a); by eexists _, _.
  - by eexists _, _.
Qed.

(** As long as one call has not finished, some thread can take its next
    step: the thread holding the lock if it is held, any unfinished thread
    otherwise. *)
Lemma lock_inv_progress P i p :
  lock_inv P →
  threads P !! i = Some p → is_finished p = false →
  ∃ j q q' w',
    threads P !! j = Some q ∧ thread_step q (shared P) = Some (q', w').
Proof.
  intros Hinv Hi Hp.
  unfold lock_inv in Hinv. destruct (model_lock (shared P)) eqn:Hl.
  - destruct Hinv as (j & q & Hj & Hq & _).
    destruct (holder_steps q (shared P) Hq) as (q' & w' & Hstep).
    by exists j, q, q', w'.
  - destruct (unfinished_thread_steps_when_free p (shared P) Hl Hp) as (p' & w' & Hstep).
    by exists i, p, p', w'.
Qed.

Lemma thread_step_remaining p w p' w' :
  thread_step p w = Some (p', w') → (remaining p' < remaining p)%nat.
Proof.
  destruct p as [a|a|a|r|res]; simpl.
  - destruct (model w); intros [= <- <-]; simpl; lia.
  - unfold acquire. destruct (model_lock w); [done|]. intros [= <- <-]. simpl. lia.
  - unfold model_generate. destruct (model w) as [m|].
    + destruct (generate m (files w) a); intros [= <- <-]; simpl; lia.
    + intros [= <- <-]. simpl. lia.
  - intros [= <- <-]. simpl. lia.
  - done.
Qed.

Lemma sum_remaining_insert (l : list pc) i p p' :
  l !! i = Some p →
  (sum_list (remaining <$> <[i := p']> l) + remaining p
   = sum_list (remaining <$> l) + remaining p')%nat.
Proof.
  revert i. induction l as [|x l IH]; intros [|i] Hi; csimpl in *; [done..| |].
  - injection Hi as ->. lia.
  - specialize (IH i Hi). lia.
Qed.

Lemma finished_or_not (l : list pc) :
  Forall (λ p, is_finished p = true) l ∨
  ∃ i p, l !! i = Some p ∧ is_finished p = false.
Proof.
  induction l as [|x l [IH|(i & p & Hi & Hp)]].
  - left. constructor.
  - destruct (is_finished x) eqn:Hx.
    + left. by constructor.
    + right. by exists 0%nat, x.
  - right. by exists (S i), p.
Qed.

Lemma run_to_completion n P :
  lock_inv P →
  (sum_list (remaining <$> threads P) ≤ n)%nat →
  ∃ P', rtc pool_step P P' ∧
        length (threads P') = length (threads P) ∧
        Forall (λ p, is_finished p = true) (threads P') ∧
        lock_inv P'.
Proof.
  revert P. induction n as [|n IH]; intros P Hinv Hn.
  - exists P. split_and!; [done..| |done].
    destruct (finished_or_not (threads P)) as [?|(i & p & Hi & Hp)]; [done|].
    destruct (lock_inv_progress P i p Hinv Hi Hp) as (j & q & q' & w' & Hj & Hstep).
    apply thread_step_remaining in Hstep.
    pose proof (sum_remaining_insert (threads P) j q q' Hj). lia.
  - destruct (finished_or_not (threads P)) as [?|(i & p & Hi & Hp)].
    { exists P. by split_and!. }
    destruct (lock_inv_progress P i p Hinv Hi Hp) as (j & q & q' & w' & Hj & Hstep).
    pose proof (step_thread P j q q' w' Hj Hstep) as Hpool.
    destruct (IH (mkPool (<[j := q']> (threads P)) w')) as (P' & Hrun & Hlen & Hfin & Hinv').
    + by eapply lock_inv_step.
    + simpl. apply thread_step_remaining in Hstep.
      pose proof (sum_remaining_insert (threads P) j q q' Hj). lia.
    + exists P'. split_and!; [by eapply rtc_l| |done..].
      simpl in Hlen. by rewrite length_insert in Hlen.
Qed.

(** X14.  The lock protocol cannot deadlock and no call waits for ever:
    from every state a pool of calls reaches, the calls in flight can all
    be run to the end, without any new call, and the lock is then free.
    In particular, while a call is unfinished some thread can step. *)
Theorem calls_run_to_completion P0 P :
  initial P0 → rtc pool_step P0 P →
  ∃ P',
    rtc pool_step P P' ∧
    length (threads P') = length (threads P) ∧
    Forall (λ p, is_finished p = true) (threads P') ∧
    model_lock (shared P') = false.
Proof.
  intros Hinit Hsteps.
  pose proof (lock_inv_reachable P0 P (initial_lock_inv P0 Hinit) Hsteps) as Hinv.
  destruct (run_to_completion _ P Hinv (le_n _)) as (P' & Hrun & Hlen & Hfin & Hinv').
  exists P'. split_and!; [done..|].
  unfold lock_inv in Hinv'. destruct (model_lock (shared P')); [|done].
  destruct Hinv' as (i & p & Hi & Hp & _).
  rewrite Forall_lookup in Hfin. specialize (Hfin i p Hi).
  by destruct p.
Qed.

End ThreadsFurther.

(** ** The running server *)

Section Serving.
Context `{PyLib}.
Import Server.

Lemma step_keeps_globals cls S S' :
  step cls S S' →
  model (world S') = model (world S) ∧
  model_loaded (world S') = model_loaded (world S).
Proof.
  intros [Hs|Hc].
  - destruct Hs as [S c bl Hb Hcls | S i c o w' Hi Hr Hrun Hnb]; [done|]. simpl.
    pose proof (keeps_handle_one_request model
                  (λ _ _, eq_refl) (λ _ _, eq_refl) (λ _ _, eq_refl) (λ _ _, eq_refl)
                  (request c) (world S)) as Hm.
    pose proof (keeps_handle_one_request model_loaded
                  (λ _ _, eq_refl) (λ _ _, eq_refl) (λ _ _, eq_refl) (λ _ _, eq_refl)
                  (request c) (world S)) as Hf.
    rewrite Hrun in Hm, Hf. done.
  - by destruct Hc.
Qed.

Lemma reachable_keeps_globals cls S0 S :
  rtc (step cls) S0 S →
  model (world S) = model (world S0) ∧
  model_loaded (world S) = model_loaded (world S0).
Proof.
  intros Hsteps. induction Hsteps as [S|S S' S'' Hstep _ [IHm IHf]]; [done|].
  destruct (step_keeps_globals cls S S' Hstep) as [Hm Hf]. split; congruence.
Qed.

Lemma main_run_server load_model environ w port w' :
  main load_model environ w = (Return (RunServer port), w') →
  ∃ m, model w' = Some m ∧ model_loaded w' = true ∧ model_lock w' = model_lock w.
Proof.
  destruct load_model as [e|m].
  - by rewrite main_load_failed.
  - rewrite main_load_succeeded. intros [= _ <-]. by exists m.
Qed.

(** X15.  While the server runs the model is loaded.  In every state it
    reaches after [main] has called [run_server], whatever requests were
    served in between, the global [model] is the object the loader built,
    the flag is true and the lock is free; a GET of [/health] is answered
    [{"status": "ok", "model_loaded": true}]. *)
Theorem serving_always_has_a_model load_model environ w port w' queued S :
  model_lock w = false →
  main load_model environ w = (Return (RunServer port), w') →
  rtc run_server (serving queued w') S →
  (∃ m, load_model = inr m ∧ model (world S) = Some m) ∧
  model_loaded (world S) = true ∧
  model_lock (world S) = false ∧
  (∀ self, command self = "GET" → urlparse_path (path self) = inr "/health" →
     handle_one_request self (world S)
     = (Return tt,
        emit [EvResponse
                (mkResponse 200 json_headers
                   (JsonBody (PDict [("status", PStr "ok");
                                     ("model_loaded", PBool true)])))] (world S))).
Proof.
  intros Hl Hmain Hsteps.
  destruct (reachable_keeps_globals _ _ _ Hsteps) as [Hm Hf]. simpl in Hm, Hf.
  assert (Hfree : model_lock (world S) = false).
  { apply (lock_free_reachable server_class (serving queued w') S); [|done].
    split_and!; [done..|]. simpl.
    destruct (main_run_server _ _ _ _ _ Hmain) as (m & _ & _ & ->). done. }
  destruct load_model as [e|m]; [by rewrite main_load_failed in Hmain|].
  rewrite main_load_succeeded in Hmain. injection Hmain as _ <-.
  simpl in Hm, Hf. split_and!; [by exists m|done..|].
  intros self Hc Hroute. unfold handle_one_request, do_GET.
  rewrite Hc, Hroute. simpl.
  unfold bind, ret, get, send_json_response, modify. simpl. by rewrite Hf.
Qed.

(** X16.  While the server runs, the early return of line 40 is never
    taken and no call waits for the lock: every call of [transcribe_audio]
    takes the lock, calls the model, releases the lock and returns the dict
    made from what the model did. *)
Theorem serving_calls_reach_the_model load_model environ w port w' queued S a :
  model_lock w = false →
  main load_model environ w = (Return (RunServer port), w') →
  rtc run_server (serving queued w') S →
  ∃ m, load_model = inr m ∧
       let r := generate m (files (world S)) a in
       transcribe_audio a (world S)
       = (Return (result_of r), emit [EvAcquire; EvGenerate a r; EvRelease] (world S)).
Proof.
  intros Hl Hmain Hsteps.
  destruct (reachable_keeps_globals _ _ _ Hsteps) as [Hm _]. simpl in Hm.
  assert (Hfree : model_lock (world S) = false).
  { apply (lock_free_reachable server_class (serving queued w') S); [|done].
    split_and!; [done..|]. simpl.
    destruct (main_run_server _ _ _ _ _ Hmain) as (m & _ & _ & ->). done. }
  destruct load_model as [e|m]; [by rewrite main_load_failed in Hmain|].
  rewrite main_load_succeeded in Hmain. injection Hmain as _ <-.
  simpl in Hm. exists m. split; [done|].
  by apply transcribe_audio_loaded.
Qed.

End Serving.

(** ** Instances of the further properties *)


Lemma responses_allow_any_origin_witness :
  model_lock ready_world = false ∧ command post_unknown = "POST" ∧
  ∀ r, r ∈ responses (trace (snd (@handle_one_request sample_lib post_unknown ready_world))) →
       ("Access-Control-Allow-Origin", "*") ∈ headers r ∧
       ("Content-Type", "application/json") ∈ headers r.
Proof.
  split_and!; [reflexivity..|]. intros r Hr.
  destruct (@responses_allow_any_origin sample_lib post_unknown ready_world
              (fst (@handle_one_request sample_lib post_unknown ready_world))
              (snd (@handle_one_request sample_lib post_unknown ready_world))
              (trace (snd (@handle_one_request sample_lib post_unknown ready_world))) r
              eq_refl (or_intror (or_introl eq_refl)) eq_refl eq_refl Hr)
    as [Hcors Hjson].
  split; [exact Hcors|]. apply Hjson. discriminate.
Defined.

Lemma error_statuses_have_one_cause_witness :
  model_lock ready_world = false ∧ command post_empty_object = "POST" ∧
  ∀ r, r ∈ responses (trace (snd (@handle_one_request sample_lib post_empty_object ready_world))) →
       status r = 400 ∧
       content r = JsonBody (PDict [("error", PStr "No path provided")]).
Proof.
  split; [reflexivity|]. split; [reflexivity|]. intros r Hr.
  destruct (@error_statuses_have_one_cause sample_lib post_empty_object ready_world
              (fst (@handle_one_request sample_lib post_empty_object ready_world))
              (snd (@handle_one_request sample_lib post_empty_object ready_world))
              (trace (snd (@handle_one_request sample_lib post_empty_object ready_world))) r
              eq_refl (or_intror (or_introl eq_refl)) eq_refl eq_refl Hr)
    as (_ & H400 & _).
  assert (Hs : status r = 400).
  { vm_compute in Hr. apply list_elem_of_singleton in Hr. rewrite Hr. reflexivity. }
  split; [exact Hs|]. apply (H400 Hs).
Defined.

Lemma handler_touches_only_its_temp_file_witness :
  model_lock crowded_world = false ∧
  files crowded_world !! "/tmp/tmpvs0.wav" = Some riff ∧
  files (snd (@handle_one_request sample_lib post_audio crowded_world)) !! "/tmp/tmpvs0.wav"
  = Some riff ∧
  files (snd (@handle_one_request sample_lib get_health crowded_world))
  = files crowded_world.
Proof.
  assert (Hheld : files crowded_world !! "/tmp/tmpvs0.wav" = Some riff).
  { vm_compute. reflexivity. }
  split; [reflexivity|]. split; [exact Hheld|]. split.
  - destruct (@handle_one_request sample_lib post_audio crowded_world) as [o w'] eqn:Hrun.
    destruct (@handler_touches_only_its_temp_file sample_lib post_audio crowded_world
                o w' eq_refl Hrun) as [Hkept _].
    simpl. rewrite <- Hheld. apply Hkept. rewrite Hheld. eexists. reflexivity.
  - destruct (@handle_one_request sample_lib get_health crowded_world) as [o w'] eqn:Hrun.
    destruct (@handler_touches_only_its_temp_file sample_lib get_health crowded_world
                o w' eq_refl Hrun) as (_ & _ & Hsame).
    apply Hsame. left. discriminate.
Defined.

Lemma requests_leave_no_temp_files_witness :
  model_lock ready_world = false ∧ unlink_denied ready_world = ∅ ∧
  (∀ name data, @write_error sample_lib name data = None) ∧
  files (@run_ops sample_lib (requests [post_audio; get_health; post_audio; post_path])
           ready_world) = ∅.
Proof.
  split_and!; [reflexivity|reflexivity|intros name data; reflexivity|].
  apply (@requests_leave_no_temp_files sample_lib
           [post_audio; get_health; post_audio; post_path] ready_world);
    [reflexivity|reflexivity|intros name data; reflexivity].
Defined.


Lemma non_object_body_never_reaches_model_witness :
  command post_array = "POST" ∧
  @urlparse_path array_lib (path post_array) = inr "/transcribe-file" ∧
  @json_body array_lib post_array = inr (PList [PStr "path"]) ∧
  ∃ e, @handle_one_request array_lib post_array ready_world = (Raise e, ready_world) ∧
       exc_type e = "TypeError".
Proof.
  split_and!; [reflexivity..|].
  destruct (@non_object_body_never_reaches_model array_lib post_array ready_world
              (PList [PStr "path"]) eq_refl eq_refl eq_refl) as (_ & Hraise & _).
  - intros d. discriminate.
  - apply Hraise. discriminate.
Defined.

Lemma get_and_options_ignore_lock_witness :
  model_lock busy_world = true ∧
  (command get_status = "GET" ∧
   @urlparse_path sample_lib (path get_status) = inr "/status" ∧
   ∃ r, @handle_one_request sample_lib get_status busy_world
        = (Return tt, emit [EvResponse r] busy_world))
  ∧ (command get_bad_target = "GET" ∧
     @urlparse_path sample_lib (path get_bad_target)
     = inl (ValueError "Invalid IPv6 URL") ∧
     @handle_one_request sample_lib get_bad_target busy_world
     = (Raise (ValueError "Invalid IPv6 URL"), busy_world)).
Proof.
  split; [reflexivity|]. split.
  - do 2 (split; [reflexivity|]).
    destruct (@get_and_options_ignore_lock sample_lib get_status busy_world)
      as (_ & Hget & _).
    destruct (Hget "/status" eq_refl eq_refl) as (r & Hrun & _).
    exists r. exact Hrun.
  - do 2 (split; [reflexivity|]).
    destruct (@get_and_options_ignore_lock sample_lib get_bad_target busy_world)
      as (_ & _ & Hbad).
    apply Hbad; reflexivity.
Defined.

Lemma transcribe_audio_result_shape_witness :
  model_lock ready_world = false ∧
  ∃ d, fst (transcribe_audio (PStr sample_path) ready_world) = Return (PDict d) ∧
       length d = 2%nat.
Proof.
  split; [reflexivity|].
  destruct (transcribe_audio_result_shape (PStr sample_path) ready_world eq_refl)
    as (d & text & evs & Hrun & Hlen & _).
  exists d. rewrite Hrun. split; [reflexivity|exact Hlen].
Defined.

Lemma concurrent_log_is_well_bracketed_witness :
  Threads.initial pool_start ∧
  lock_after false (trace (Threads.shared pool_start)) = Some false ∧
  rtc Threads.pool_step pool_start pool_running ∧
  lock_after false (trace (Threads.shared pool_running)) = Some true.
Proof.
  split_and!; [exact pool_start_initial|reflexivity|exact pool_running_reachable|].
  apply (concurrent_log_is_well_bracketed pool_start pool_running
           pool_start_initial eq_refl pool_running_reachable).
Defined.

Lemma calls_run_to_completion_witness :
  Threads.initial pool_start ∧
  rtc Threads.pool_step pool_start pool_running ∧
  ∃ P', rtc Threads.pool_step pool_running P' ∧
        length (Threads.threads P') = 2%nat ∧
        model_lock (Threads.shared P') = false.
Proof.
  split_and!; [exact pool_start_initial|exact pool_running_reachable|].
  destruct (calls_run_to_completion pool_start pool_running
              pool_start_initial pool_running_reachable)
    as (P' & Hrun & Hlen & _ & Hfree).
  exists P'. split_and!; [exact Hrun|exact Hlen|exact Hfree].
Defined.

Lemma main_loads_sample_model :
  @main sample_lib (inr sample_model) ∅ (initial_world ∅ ∅)
  = (Return (RunServer 8765), loaded_world).
Proof. reflexivity. Defined.

Lemma server_accepted_reachable :
  rtc (@Server.run_server sample_lib) (serving [ready_conn] loaded_world) server_accepted.
Proof.
  apply rtc_once. left.
  apply (Server.step_accept _ (serving [ready_conn] loaded_world) ready_conn []);
    [reflexivity|right; reflexivity].
Defined.

Lemma serving_always_has_a_model_witness :
  model_lock (initial_world ∅ ∅) = false ∧
  @main sample_lib (inr sample_model) ∅ (initial_world ∅ ∅)
  = (Return (RunServer 8765), loaded_world) ∧
  rtc (@Server.run_server sample_lib) (serving [ready_conn] loaded_world) server_accepted ∧
  model_loaded (Server.world server_accepted) = true ∧
  model_lock (Server.world server_accepted) = false.
Proof.
  split_and!; [reflexivity|exact main_loads_sample_model|exact server_accepted_reachable| |];
    destruct (@serving_always_has_a_model sample_lib (inr sample_model) ∅
                (initial_world ∅ ∅) 8765 loaded_world [ready_conn] server_accepted
                eq_refl main_loads_sample_model server_accepted_reachable)
      as (_ & Hflag & Hfree & _); assumption.
Defined.

Lemma serving_calls_reach_the_model_witness :
  model_lock (initial_world ∅ ∅) = false ∧
  @main sample_lib (inr sample_model) ∅ (initial_world ∅ ∅)
  = (Return (RunServer 8765), loaded_world) ∧
  rtc (@Server.run_server sample_lib) (serving [ready_conn] loaded_world) server_accepted ∧
  ∃ r, fst (transcribe_audio (PStr sample_path) (Server.world server_accepted))
       = Return (result_of r).
Proof.
  split_and!; [reflexivity|exact main_loads_sample_model|exact server_accepted_reachable|].
  destruct (@serving_calls_reach_the_model sample_lib (inr sample_model) ∅
              (initial_world ∅ ∅) 8765 loaded_world [ready_conn] server_accepted
              (PStr sample_path)
              eq_refl main_loads_sample_model server_accepted_reachable)
    as (m & _ & Hrun).
  eexists. rewrite Hrun. reflexivity.
Defined.

(** ** The temporary file and the lock *)

Section LockScope.
Context `{PyLib}.

(** X17.  A failed write leaves the temporary file behind.  When, in a
    POST to [/transcribe] whose body was read, the write of line 92 (or the
    close at the end of the [with] block) raises, the exception leaves the
    handler: lines 91-93 stand before the [try] of line 95, so the
    [finally] clause is not entered.  Nothing is sent, the model is not
    called, [os.unlink] is not called, and the file created on line 91,
    under a name that was free, is still there afterwards; no other path
    has changed. *)
Theorem failed_write_leaves_temp_file self w post_data name next e :
  command self = "POST" →
  urlparse_path (path self) = inr "/transcribe" →
  post_data_of self = inr post_data →
  mkstemp w = inr (name, next) →
  write_error name post_data = Some e →
  ∃ w',
    handle_one_request self w = (Raise e, w') ∧
    trace w' = trace w ++ [EvTempfile name] ∧
    files w !! name = None ∧
    is_Some (files w' !! name) ∧
    (∀ p, p ≠ name → files w' !! p = files w !! p) ∧
    model_lock w' = model_lock w.
Proof.
  intros Hc Hroute Hbody Hname Hwrite.
  exists (temp_created name next w).
  destruct (mkstemp_fresh _ _ _ Hname) as [Hfree _].
  split_and!; [|done|done| | |done].
  - unfold handle_one_request. rewrite Hc. simpl.
    by apply (do_POST_transcribe_unwritten _ _ post_data).
  - simpl. rewrite lookup_insert_eq. by eexists.
  - intros p Hp. simpl. by rewrite lookup_insert_ne.
Qed.


End LockScope.

Lemma failed_write_leaves_temp_file_witness :
  command post_audio = "POST" ∧
  @urlparse_path full_disk_lib (path post_audio) = inr "/transcribe" ∧
  @post_data_of full_disk_lib post_audio = inr riff ∧
  @mkstemp full_disk_lib ready_world = inr ("/tmp/tmpvs0.wav", 1%nat) ∧
  @write_error full_disk_lib "/tmp/tmpvs0.wav" riff
  = Some (OSError "[Errno 28] No space left on device") ∧
  files ready_world !! "/tmp/tmpvs0.wav" = None ∧
  ∃ w',
    @handle_one_request full_disk_lib post_audio ready_world
    = (Raise (OSError "[Errno 28] No space left on device"), w') ∧
    trace w' = [EvTempfile "/tmp/tmpvs0.wav"] ∧
    is_Some (files w' !! "/tmp/tmpvs0.wav").
Proof.
  assert (Hname : @mkstemp full_disk_lib ready_world = inr ("/tmp/tmpvs0.wav", 1%nat)).
  { vm_compute. reflexivity. }
  do 3 (split; [reflexivity|]). split; [exact Hname|]. split; [reflexivity|].
  destruct (@failed_write_leaves_temp_file full_disk_lib post_audio ready_world riff
              "/tmp/tmpvs0.wav" 1%nat (OSError "[Errno 28] No space left on device")
              eq_refl eq_refl eq_refl Hname eq_refl)
    as (w' & Hrun & Htrace & Hfree & Hleft & _).
  split; [exact Hfree|].
  exists w'. split; [exact Hrun|]. split; [exact Htrace|exact Hleft].
Defined.

